(** * aiovantage: the object synchronisation runtime, embedded in Rocq

    A shallow embedding of the parts of [aiovantage] that keep the local
    property caches, the controller registries and the snapshot loader
    coherent:

    - [_object_interfaces/button.py]   (ButtonInterface)
    - [_controllers/buttons.py]        (ButtonsController)
    - [_config_client/file_loader.py]  (iter_objects)
    - [__init__.py]                    (Vantage)

    Python objects that are mutated in place are threaded explicitly; code
    that can raise returns a [result]; dictionaries are stdpp [gmap]s. *)

From Stdlib Require Import ZArith String Ascii List Lia DecimalString.
From Stdlib Require DecimalPos DecimalZ.
From stdpp Require Import base option list strings gmap fin_maps.

Local Open Scope string_scope.
Local Open Scope list_scope.
Local Open Scope Z_scope.

(** * Part I: the embedding *)

(** ** Python exceptions and fallible results *)

Inductive pykey :=
  | KInt (z : Z)
  | KStr (s : string).

Inductive Exc :=
  | CommandError
  | ConversionError
  | ValueError
  | KeyError (k : pykey)
  | IndexError
  | ProtocolError
  | TimeoutError
  | ParseError.

Inductive result (A : Type) :=
  | Ok (a : A)
  | Raise (e : Exc).
Arguments Ok {A} a.
Arguments Raise {A} e.

#[global] Instance pykey_eq_dec : EqDecision pykey.
Proof. solve_decision. Defined.
#[global] Instance Exc_eq_dec : EqDecision Exc.
Proof. solve_decision. Defined.

(** ** The capability framework: property caches *)

Module Interface.
Section Cache.
Context {V : Type} `{EqDecision V}.

(** One iteration of the loop of [update_properties]: the entry is
    written and its name recorded only when the value differs from the
    cached one. *)
Definition update_property (acc : gmap string V * list string)
    (kv : string * V) : gmap string V * list string :=
  if decide (acc.1 !! kv.1 = Some kv.2) then acc
  else (<[kv.1 := kv.2]> acc.1, acc.2 ++ [kv.1]).

(** Modelled from the spec: [Interface.update_properties] lives in
    [_object_interfaces/base.py], which is not part of the sources.  "For
    each entry, compares against the current cached value using semantic
    equality (not identity); only genuinely changed entries are written
    and returned."  The new values are a Python dict, given here by its
    items in insertion order; semantic equality is the decidable equality
    of the value type. *)
Definition update_properties (cache : gmap string V)
    (new : list (string * V)) : gmap string V * list string :=
  fold_left update_property new (cache, []).

(** A whole history of calls: the caches are threaded, the changed-name
    lists collected call by call. *)
Fixpoint update_sequence (cache : gmap string V)
    (calls : list (list (string * V))) : gmap string V * list (list string) :=
  match calls with
  | [] => (cache, [])
  | new :: rest =>
      let r := update_properties cache new in
      let rs := update_sequence r.1 rest in
      (rs.1, r.2 :: rs.2)
  end.

(** The entries of [new] whose value differs from the cached one. *)
Definition differing (cache : gmap string V) (new : list (string * V))
    : list (string * V) :=
  filter (λ kv, cache !! kv.1 ≠ Some kv.2) new.
End Cache.
End Interface.

(** ** The command client and the wire format *)

Module CommandClient.

(** What the controller answers to one request: response lines, or the
    exception the client raises for it. *)
Inductive Reply :=
  | Response (lines : list string)
  | Failure (e : Exc).

(** Everything outside the object: the lines written to the command
    connection, the answers still to come, and the warnings logged. *)
Record World := mkWorld {
  sent : list string;
  script : list Reply;
  log : list string
}.

(** Computations that thread a state and may raise. *)
Definition M (S A : Type) : Type := S → S * result A.

Definition ret {S A} (a : A) : M S A := λ s, (s, Ok a).
Definition raise {S A} (e : Exc) : M S A := λ s, (s, Raise e).
Definition bind {S A B} (m : M S A) (f : A → M S B) : M S B :=
  λ s, match m s with
       | (s', Ok a) => f a s'
       | (s', Raise e) => (s', Raise e)
       end.
Definition try_except {S A} (m : M S A) (handler : Exc → M S A) : M S A :=
  λ s, match m s with
       | (s', Ok a) => (s', Ok a)
       | (s', Raise e) => handler e s'
       end.
Definition of_result {S A} (r : result A) : M S A := λ s, (s, r).

Definition str_of_Z (z : Z) : string := NilZero.string_of_int (Z.to_int z).

Definition join (sep : string) (l : list string) : string := String.concat sep l.

Definition is_space (c : ascii) : bool :=
  let n := nat_of_ascii c in
  (Nat.eqb n 32 || (Nat.leb 9 n && Nat.leb n 13))%bool.

Fixpoint tokens (cur : string) (s : string) : list string :=
  match s with
  | EmptyString => if decide (cur = "") then [] else [cur]
  | String c s' =>
      if is_space c
      then (if decide (cur = "") then tokens "" s' else cur :: tokens "" s')
      else tokens (cur +:+ String c "") s'
  end.

(** Modelled from the spec: [Converter.tokenize] is in [command_client],
    which is not part of the sources.  "Tokenization: whitespace-separated
    tokens." *)
Definition tokenize (s : string) : list string := tokens "" s.

Definition digit_of (c : ascii) : option Z :=
  let n := nat_of_ascii c in
  if (Nat.leb 48 n && Nat.leb n 57)%bool then Some (Z.of_nat (n - 48)) else None.

Fixpoint int_digits (s : string) (acc : Z) (after_digit : bool) : option Z :=
  match s with
  | EmptyString => if after_digit then Some acc else None
  | String c s' =>
      if Ascii.eqb c "_"
      then (if after_digit then int_digits s' acc false else None)
      else match digit_of c with
           | Some d => int_digits s' (10 * acc + d) true
           | None => None
           end
  end.

(** Python's [int(str)] on a token: an optional sign, then decimal digits
    (single underscores between digits allowed); anything else is a
    [ValueError]. *)
Definition int (s : string) : result Z :=
  let digits (t : string) (sign : Z) :=
    match int_digits t 0 false with
    | Some n => Ok (sign * n)
    | None => Raise ValueError
    end in
  match s with
  | String "+" t => digits t 1
  | String "-" t => digits t (-1)
  | _ => digits s 1
  end.

(** Modelled from the spec: [CommandClient.raw_request] is not part of the
    sources.  "rawRequest(line) -> response lines": the line is written,
    and the next answer of the controller is returned or raised; when no
    answer comes the call fails with [TimeoutError]. *)
Definition raw_request (line : string) : M World (list string) :=
  λ w, let w' rest := mkWorld (sent w ++ [line]) rest (log w) in
       match script w with
       | [] => (w' [], Raise TimeoutError)
       | Response lines :: rest => (w' rest, Ok lines)
       | Failure e :: rest => (w' rest, Raise e)
       end.

Definition warning (msg : string) : M World unit :=
  λ w, (mkWorld (sent w) (script w) (log w ++ [msg]), Ok tt).

(** Modelled from the spec: the command invoker of [command_client] is not
    part of the sources.  Request [INVOKE <objectId> <Interface.Method>
    [arg ...]]; success reply [R:INVOKE <objectId> <value-or-OK>
    <Interface.Method> [arg ...]]; [R:ERROR <code> <message>] fails with
    [CommandError]; a reply that does not echo the object id and the method
    fails with [ProtocolError]; a value that cannot be decoded fails with
    [ConversionError]. *)
Definition parse_reply {A} (decode : string → option A) (vid : Z)
    (method : string) (line : string) : result A :=
  match tokenize line with
  | [] => Raise ProtocolError
  | head :: rest =>
      if decide (head = "R:ERROR") then Raise CommandError
      else
        match rest with
        | id :: value :: meth :: _ =>
            if decide (head = "R:INVOKE" ∧ id = str_of_Z vid ∧ meth = method)
            then match decode value with
                 | Some a => Ok a
                 | None => Raise ConversionError
                 end
            else Raise ProtocolError
        | _ => Raise ProtocolError
        end
  end.

(** What [invoke] makes of the next answer of the controller. *)
Definition next_reply {A} (decode : string → option A) (vid : Z)
    (method : string) (w : World) : result A :=
  match script w with
  | [] => Raise TimeoutError
  | Response lines :: _ => parse_reply decode vid method (List.last lines "")
  | Failure e :: _ => Raise e
  end.

Definition invoke_line (vid : Z) (method : string) (params : list string)
    : string :=
  join " " ("INVOKE" :: str_of_Z vid :: method :: params).

Definition invoke {A} (decode : string → option A) (vid : Z) (method : string)
    (params : list string) : M World A :=
  bind (raw_request (invoke_line vid method params))
    (λ lines, of_result (parse_reply decode vid method (List.last lines ""))).

End CommandClient.

(** ** [_object_interfaces/button.py]: ButtonInterface *)

Module ButtonInterface.
Import CommandClient.

Notation "x <- m ;; k" := (bind m (λ x, k))
  (at level 100, m at next level, right associativity, only parsing).
Notation "m ;;; k" := (bind m (λ _, k))
  (at level 100, right associativity, only parsing).

Inductive State := Up | Down.



Inductive BlinkRate := Fast | Medium | Slow | VerySlow | Off.

(** A [Decimal], kept as its text. *)
Definition Decimal : Type := string.

(** The value of a property slot; [VNone] is Python's [None], the
    "unknown" value. *)
Inductive Value :=
  | VNone
  | VState (s : State)
  | VColor (rgb : Z * Z * Z)
  | VBlink (rate : BlinkRate).

#[global] Instance State_eq_dec : EqDecision State.
Proof. solve_decision. Defined.
#[global] Instance BlinkRate_eq_dec : EqDecision BlinkRate.
Proof. solve_decision. Defined.
#[global] Instance Value_eq_dec : EqDecision Value.
Proof. solve_decision. Defined.

(** [IntEnum] members format as their integer value. *)
Definition State_value (s : State) : Z :=
  match s with Up => 0 | Down => 1 end.

(** The state token of a reply: [<state (Up/Down)>], or its integer. *)
Definition State_decode (tok : string) : option State :=
  if decide (tok = "Up" ∨ tok = "0") then Some Up
  else if decide (tok = "Down" ∨ tok = "1") then Some Down
  else None.






(** [StrEnum] members format as their string value. *)
Definition BlinkRate_value (r : BlinkRate) : string :=
  match r with
  | Fast => "FAST"
  | Medium => "MEDIUM"
  | Slow => "SLOW"
  | VerySlow => "VERYSLOW"
  | Off => "OFF"
  end.

(** [ButtonInterface.BlinkRate(blink_str)]: lookup by value, [ValueError]
    when no member has it. *)
Definition BlinkRate_of (s : string) : result BlinkRate :=
  if decide (s = "FAST") then Ok Fast
  else if decide (s = "MEDIUM") then Ok Medium
  else if decide (s = "SLOW") then Ok Slow
  else if decide (s = "VERYSLOW") then Ok VerySlow
  else if decide (s = "OFF") then Ok Off
  else Raise ValueError.

(** A button object: its id, whether it is bound to a command client, and
    its property slots by name. *)
Record Button := mkButton {
  vid : Z;
  command_client : bool;
  props : gmap string Value
}.

(** The class-level defaults of the property slots. *)
Definition default_props : gmap string Value :=
  <["state" := VState Up]>
  (<["led_active_color" := VNone]>
  (<["led_inactive_color" := VNone]>
  (<["led_blink_rate" := VNone]> ∅))).

Definition new_button (vid : Z) (client : bool) : Button :=
  mkButton vid client default_props.

(** The object together with the world it talks to. *)
Record Env := mkEnv {
  self : Button;
  world : World
}.

Definition lift_world {A} (m : M World A) : M Env A :=
  λ s, let r := m (world s) in (mkEnv (self s) r.1, r.2).

Definition get_self : M Env Button := λ s, (s, Ok (self s)).

(** [self.update_properties({...})] *)
Definition update_properties (new : list (string * Value)) : M Env (list string) :=
  λ s, let r := Interface.update_properties (props (self s)) new in
       (mkEnv (mkButton (vid (self s)) (command_client (self s)) r.1) (world s),
        Ok r.2).

(** Modelled from the spec: [Interface.invoke] is in
    [_object_interfaces/base.py], which is not part of the sources.  It
    sends the method for this object's id through the command client; as
    in [set_led], an object without a command client raises
    [ValueError]. *)
Definition invoke {A} (decode : string → option A) (method : string)
    (params : list string) : M Env A :=
  b <- get_self ;;
  if command_client b
  then lift_world (CommandClient.invoke decode (vid b) method params)
  else raise ValueError.

Definition get_state (hw : bool) : M Env State :=
  invoke State_decode (if hw then "Button.GetStateHW" else "Button.GetState") [].

Definition set_state (state : State) (sw : bool) : M Env unit :=
  invoke (λ _, Some tt) (if sw then "Button.SetStateSW" else "Button.SetState")
    [str_of_Z (State_value state)].









Definition led_properties (active inactive : Z * Z * Z) (blink_rate : BlinkRate)
    : list (string * Value) :=
  [("led_active_color", VColor active);
   ("led_inactive_color", VColor inactive);
   ("led_blink_rate", VBlink blink_rate)].

Definition set_led (active inactive : Z * Z * Z) (blink_rate : BlinkRate)
    : M Env unit :=
  b <- get_self ;;
  if negb (command_client b) then raise ValueError
  else
    let '(r1, g1, b1) := active in
    let '(r2, g2, b2) := inactive in
    lift_world (raw_request (join " "
      ["LED"; str_of_Z (vid b); str_of_Z r1; str_of_Z g1; str_of_Z b1;
       str_of_Z r2; str_of_Z g2; str_of_Z b2; BlinkRate_value blink_rate])) ;;;
    update_properties (led_properties active inactive blink_rate) ;;;
    ret tt.


Definition press : M Env unit := set_state Down false.
Definition release : M Env unit := set_state Up false.
Definition press_and_release : M Env unit := press ;;; release.

Definition is_down (b : Button) : bool :=
  bool_decide (props b !! "state" = Some (VState Down)).

(** [(int(r), int(g), int(b))] *)
Definition rgb (r g b : string) : result (Z * Z * Z) :=
  match int r with
  | Raise e => Raise e
  | Ok r' =>
      match int g with
      | Raise e => Raise e
      | Ok g' =>
          match int b with
          | Raise e => Raise e
          | Ok b' => Ok (r', g', b')
          end
      end
  end.

(** The dict built from the tokens of a [GETLED] reply or an [S:LED]
    status; its three values are evaluated left to right before
    [update_properties] is called. *)
Definition led_update (r1 g1 b1 r2 g2 b2 blink_str : string) : M Env (list string) :=
  active <- of_result (rgb r1 g1 b1) ;;
  inactive <- of_result (rgb r2 g2 b2) ;;
  rate <- of_result (BlinkRate_of blink_str) ;;
  update_properties (led_properties active inactive rate).

(** Modelled from the spec: the [except] clause of the base
    [fetch_state], "a failure fetching one property (decoding or command
    error) is caught, logged": the failure is logged and the property
    skipped, any other exception goes on. *)
Definition skip_failed_property (ex : Exc) : M Env (list string) :=
  match ex with
  | CommandError | ConversionError =>
      lift_world (warning "Failed to fetch property") ;;; ret []
  | _ => raise ex
  end.

(** Modelled from the spec: [Interface.fetch_state] is in
    [_object_interfaces/base.py], which is not part of the sources.  It
    "invokes every declared cached-property getter for the bound object,
    aggregating changed-name lists; a failure fetching one property
    (decoding or command error) is caught, logged, and does not abort
    fetching the remaining properties".  Each getter is paired with the
    property its [@method(..., property=...)] declaration names. *)
Fixpoint fetch_getters (getters : list (string * M Env Value))
    : M Env (list string) :=
  match getters with
  | [] => ret []
  | (prop, getter) :: rest =>
      changed <- try_except
                   (value <- getter ;; update_properties [(prop, value)])
                   skip_failed_property ;;
      more <- fetch_getters rest ;;
      ret (changed ++ more)
  end.

(** The only getter of the button declared with a property:
    [@method("GetState", "GetStateHW", property="state")]. *)
Definition property_getters : list (string * M Env Value) :=
  [("state", s <- get_state false ;; ret (VState s))].

(** Modelled from the spec: [super().fetch_state()], the getters above
    run for this object; without a command client there is nothing to ask
    and nothing changes, as in the override below. *)
Definition Interface_fetch_state : M Env (list string) :=
  b <- get_self ;;
  if negb (command_client b) then ret [] else fetch_getters property_getters.

Definition fetch_state : M Env (list string) :=
  changed <- Interface_fetch_state ;;
  b <- get_self ;;
  if negb (command_client b) then ret changed
  else
    try_except
      (response <- lift_world (raw_request ("GETLED " +:+ str_of_Z (vid b))) ;;
       line <- (match last response with
                | Some line => ret line
                | None => raise IndexError
                end) ;;
       match tokenize line with
       | [_; _vid; _state; r1; g1; b1; r2; g2; b2; blink_str] =>
           led_changed <- led_update r1 g1 b1 r2 g2 b2 blink_str ;;
           ret (changed ++ led_changed)
       | _ => raise ValueError
       end)
      (λ ex,
        match ex with
        | CommandError | ConversionError | ValueError =>
            lift_world (warning "Failed to fetch LED state") ;;; ret changed
        | _ => raise ex
        end).

(** The [try] block of [fetch_state] and its [except] clause. *)
Definition led_block (b : Button) (changed : list string) : M Env (list string) :=
  try_except
    (bind (lift_world (raw_request ("GETLED " +:+ str_of_Z (vid b))))
       (λ response,
         bind (match last response with
               | Some line => ret line
               | None => raise IndexError
               end)
           (λ line,
             match tokenize line with
             | [_; _vid; _state; r1; g1; b1; r2; g2; b2; blink_str] =>
                 bind (led_update r1 g1 b1 r2 g2 b2 blink_str)
                   (λ led_changed, ret (changed ++ led_changed))
             | _ => raise ValueError
             end)))
    (λ ex,
      match ex with
      | CommandError | ConversionError | ValueError =>
          bind (lift_world (warning "Failed to fetch LED state")) (λ _, ret changed)
      | _ => raise ex
      end).

(** [btn_map[...]] *)
Definition btn_map (key : string) : result State :=
  if decide (key = "PRESS") then Ok Down
  else if decide (key = "RELEASE") then Ok Up
  else Raise (KeyError (KStr key)).

(** Modelled from the spec: the base [handle_category_status] is not part
    of the sources; a category that no capability recognises "is a
    no-op". *)
Definition Interface_handle_category_status (category : string)
    (args : list string) : M Env (list string) :=
  ret [].

Definition handle_category_status (category : string) (args : list string)
    : M Env (list string) :=
  if decide (category = "BTN") then
    match args with
    | [] => raise IndexError
    | arg0 :: _ =>
        state <- of_result (btn_map arg0) ;;
        update_properties [("state", VState state)]
    end
  else if decide (category = "LED") then
    match take 8 args with
    | [_state; r1; g1; b1; r2; g2; b2; blink_str] =>
        led_update r1 g1 b1 r2 g2 b2 blink_str
    | _ => raise ValueError
    end
  else Interface_handle_category_status category args.





(** What the [try] block of [fetch_state] reads from the answer to
    [GETLED]: the dict it passes to [update_properties], or the exception
    raised on the way. *)
Definition led_reply_values (answer : option Reply) : result (list (string * Value)) :=
  match answer with
  | None => Raise TimeoutError
  | Some (Failure e) => Raise e
  | Some (Response response) =>
      match last response with
      | None => Raise IndexError
      | Some line =>
          match tokenize line with
          | [_; _vid; _state; r1; g1; b1; r2; g2; b2; blink_str] =>
              match rgb r1 g1 b1 with
              | Raise e => Raise e
              | Ok active =>
                  match rgb r2 g2 b2 with
                  | Raise e => Raise e
                  | Ok inactive =>
                      match BlinkRate_of blink_str with
                      | Raise e => Raise e
                      | Ok rate => Ok (led_properties active inactive rate)
                      end
                  end
              end
          | _ => Raise ValueError
          end
      end
  end.

(** The exceptions the [except] clause of [fetch_state] names. *)
Definition led_caught (e : Exc) : bool :=
  match e with
  | CommandError | ConversionError | ValueError => true
  | _ => false
  end.

(** The line that [set_led] writes:
    [LED <vid> <R1> <G1> <B1> <R2> <G2> <B2> <BlinkRate>]. *)
Definition led_request (vid : Z) (active inactive : Z * Z * Z)
    (blink_rate : BlinkRate) : string :=
  join " "
    ["LED"; str_of_Z vid; str_of_Z active.1.1; str_of_Z active.1.2;
     str_of_Z active.2; str_of_Z inactive.1.1; str_of_Z inactive.1.2;
     str_of_Z inactive.2; BlinkRate_value blink_rate].

(** The arguments of the [S:LED] status that reports these values. *)
Definition led_status_args (flag : string) (active inactive : Z * Z * Z)
    (blink_rate : BlinkRate) : list string :=
  [flag; str_of_Z active.1.1; str_of_Z active.1.2; str_of_Z active.2;
   str_of_Z inactive.1.1; str_of_Z inactive.1.2; str_of_Z inactive.2;
   BlinkRate_value blink_rate].

(** The number a sequence of decimal digits denotes, read from the left
    with the digits already read in [acc]. *)
Fixpoint uint_value (d : Decimal.uint) (acc : Z) : Z :=
  match d with
  | Decimal.Nil => acc
  | Decimal.D0 d => uint_value d (10 * acc)
  | Decimal.D1 d => uint_value d (10 * acc + 1)
  | Decimal.D2 d => uint_value d (10 * acc + 2)
  | Decimal.D3 d => uint_value d (10 * acc + 3)
  | Decimal.D4 d => uint_value d (10 * acc + 4)
  | Decimal.D5 d => uint_value d (10 * acc + 5)
  | Decimal.D6 d => uint_value d (10 * acc + 6)
  | Decimal.D7 d => uint_value d (10 * acc + 7)
  | Decimal.D8 d => uint_value d (10 * acc + 8)
  | Decimal.D9 d => uint_value d (10 * acc + 9)
  end.

(** A button is settled for two answers when fetching them changes
    nothing: the state answer is the cached state or a skipped failure,
    the LED answer holds the cached values or is a skipped failure. *)
Definition settled (b : Button) (state_answer led_answer : option Reply) : Prop :=
  match next_reply State_decode (vid b) "Button.GetState"
          (mkWorld [] (option_list state_answer) []) with
  | Ok st => props b !! "state" = Some (VState st)
  | Raise e => e = CommandError ∨ e = ConversionError
  end
  ∧ match led_reply_values led_answer with
    | Ok new => Interface.update_properties (props b) new = (props b, [])
    | Raise e => led_caught e = true
    end.

(** A button evolves into another when it keeps its id and its client and
    every property that held a value still holds one. *)
Definition known (b : Button) (k : string) : Prop :=
  ∃ v, props b !! k = Some v ∧ v ≠ VNone.

Definition evolves (b b' : Button) : Prop :=
  vid b' = vid b ∧ command_client b' = command_client b
  ∧ ∀ k, known b k → known b' k.

Definition steady {A} (m : M Env A) : Prop :=
  ∀ s, evolves (self s) (self (m s).1).

End ButtonInterface.

(** ** [_config_client/file_loader.py]: the snapshot loader *)

Module FileLoader.

(** An [xml.etree.ElementTree] element. *)
#[warnings="-register-all"]
Inductive Element :=
  | Elem (tag : string) (attrib : list (string * string)) (text : string)
         (children : list Element).

Definition tag (e : Element) : string :=
  match e with Elem t _ _ _ => t end.

(** [list(elem)]: the direct children. *)
Definition children (e : Element) : list Element :=
  match e with Elem _ _ _ cs => cs end.

(** [elem.find(name)]: the first direct child with that tag. *)
Definition find (name : string) (e : Element) : option Element :=
  List.find (λ c, bool_decide (tag c = name)) (children e).

(** The element and everything below it, in document order. *)
Fixpoint descendants (e : Element) : list Element :=
  match e with
  | Elem _ _ _ cs => e :: flat_map descendants cs
  end.

(** [elem.iter(name)] *)
Definition iter (name : string) (e : Element) : list Element :=
  List.filter (λ c, bool_decide (tag c = name)) (descendants e).

Section Loader.
(** The dataclasses of [aiovantage.objects] and the xsdata parser are
    outside the sources; the loader is parametric in them. *)
Context {Cls Obj : Type}.
(** [_get_type_map().get] *)
Variable type_map : string → option Cls.
(** [ElementTree.tostring(elem, encoding="unicode")] *)
Variable tostring : Element → string.
(** [parser.from_string(xml_str, cls)], which may raise anything. *)
Variable from_string : string → Cls → result Obj.

(** The body of the loop over [<Object>] elements: [None] stands for
    [continue], [Some obj] for [yield obj]. *)
Definition load_record (object_elem : Element) : option Obj :=
  match children object_elem with
  | [] => None
  | typed_elem :: _ =>
      match type_map (tag typed_elem) with
      | None => None
      | Some cls =>
          match from_string (tostring typed_elem) cls with
          | Raise _ => None
          | Ok obj => Some obj
          end
      end
  end.

(** The [<Object>] elements the loop visits. *)
Definition records (root : Element) : list Element :=
  match find "Objects" root with
  | None => []
  | Some objects_elem => iter "Object" objects_elem
  end.

(** [iter_objects(path)], given what [ElementTree.parse(path)] returns or
    raises; the generator is run to its end. *)
Definition iter_objects (parsed : result Element) : result (list Obj) :=
  match parsed with
  | Raise e => Raise e
  | Ok root => Ok (omap load_record (records root))
  end.

(** The two kinds of bad record, and the empty one. *)
Definition unrecognized (object_elem : Element) : Prop :=
  ∃ typed_elem rest, children object_elem = typed_elem :: rest
    ∧ type_map (tag typed_elem) = None.

Definition unparseable (object_elem : Element) : Prop :=
  ∃ typed_elem rest cls e, children object_elem = typed_elem :: rest
    ∧ type_map (tag typed_elem) = Some cls
    ∧ from_string (tostring typed_elem) cls = Raise e.

Definition loads (object_elem : Element) (obj : Obj) : Prop :=
  ∃ typed_elem rest cls, children object_elem = typed_elem :: rest
    ∧ type_map (tag typed_elem) = Some cls
    ∧ from_string (tostring typed_elem) cls = Ok obj.
End Loader.

(** *** [_build_type_map] *)

(** What [getattr(_obj_module, cls_name, None)] finds for an exported
    name: something that is not a class, or a class, which may or may not
    be a subclass of [SystemObject]; [None] when the name is missing. *)
Inductive Export (Cls : Type) :=
  | NotAType
  | Class (cls : Cls) (is_system_object : bool).
Arguments NotAType {Cls}.
Arguments Class {Cls} cls is_system_object.

Section TypeMap.
Context {Cls : Type}.
(** [cls.vantage_type()] *)
Variable vantage_type : Cls → string.

(** The body of the loop over [__all__]. *)
Definition build_step (type_map : gmap string Cls) (attr : option (Export Cls))
    : gmap string Cls :=
  match attr with
  | Some (Class cls true) => <[vantage_type cls := cls]> type_map
  | _ => type_map
  end.

(** [_build_type_map()], given what each name of [__all__] stands for, in
    order. *)
Definition _build_type_map (exports : list (option (Export Cls)))
    : gmap string Cls :=
  fold_left build_step exports ∅.

(** [_get_type_map()] over the module-level cache [_TYPE_MAP]: the map and
    the cache after the call. *)
Definition _get_type_map (_TYPE_MAP : option (gmap string Cls))
    (exports : list (option (Export Cls)))
    : gmap string Cls * option (gmap string Cls) :=
  match _TYPE_MAP with
  | None => let m := _build_type_map exports in (m, Some m)
  | Some m => (m, Some m)
  end.
End TypeMap.

(** *** [iter_controller_ips] *)

Definition text (e : Element) : string :=
  match e with Elem _ _ t _ => t end.

(** [s.startswith(p)], [s.endswith(suffix)] and the slice [s[a:-b]]. *)
Definition startswith (p s : string) : bool := String.prefix p s.

Definition endswith (suffix s : string) : bool :=
  (Nat.leb (String.length suffix) (String.length s)
   && String.eqb (substring (String.length s - String.length suffix)
                    (String.length suffix) s) suffix)%bool.

Definition slice (a b : nat) (s : string) : string :=
  substring a (String.length s - b - a) s.

(** [str.isspace] on one ASCII character. *)
Definition isspace (c : ascii) : bool :=
  let n := nat_of_ascii c in
  (Nat.eqb n 32 || (Nat.leb 9 n && Nat.leb n 13)
   || (Nat.leb 28 n && Nat.leb n 31))%bool.

Fixpoint lstrip (s : string) : string :=
  match s with
  | EmptyString => EmptyString
  | String c s' => if isspace c then lstrip s' else s
  end.

Fixpoint rstrip (s : string) : string :=
  match s with
  | EmptyString => EmptyString
  | String c s' =>
      match rstrip s' with
      | EmptyString => if isspace c then EmptyString else String c EmptyString
      | kept => String c kept
      end
  end.

(** [s.strip()] *)
Definition strip (s : string) : string := rstrip (lstrip s).

(** The helper [_text(elem, tag)]; an element without text has the empty
    text here, which the test [child.text and ...] treats like [None]. *)
Definition _text (elem : Element) (name : string) : option string :=
  match find name elem with
  | None => None
  | Some child =>
      if decide (text child = "") then None
      else if decide (strip (text child) = "") then None
      else Some (strip (text child))
  end.

(** The body of the loop over the children of [<ProjectInfo>]. *)
Definition controller_info (elem : Element)
    : option (Z * option string * option string * option string) :=
  if (startswith "Controller" (tag elem) && endswith "Info" (tag elem))%bool then
    match CommandClient.int (slice 10 4 (tag elem)) with
    | Raise _ => None
    | Ok vid =>
        Some (vid, _text elem "IPAddress", _text elem "MACAddress",
              _text elem "Firmware")
    end
  else None.

(** [iter_controller_ips(path)], given what [ElementTree.parse(path)]
    returns or raises. *)
Definition iter_controller_ips (parsed : result Element)
    : result (list (Z * option string * option string * option string)) :=
  match parsed with
  | Raise e => Raise e
  | Ok root =>
      match find "ProjectInfo" root with
      | None => Ok []
      | Some project_info => Ok (omap controller_info (children project_info))
      end
  end.

(** The element that records a controller, as Design Center writes it. *)
Definition controller_elem (vid : Z) (fields : list Element) : Element :=
  Elem ("Controller" +:+ CommandClient.str_of_Z vid +:+ "Info") [] "" fields.

End FileLoader.

(** ** Controllers: [_controllers/buttons.py] over the base controller *)

Module Controller.

Inductive StatusType := OBJECT | CATEGORY.

(** What a subscription of the event stream listens to: the enhanced log,
    or the [S:<CATEGORY>] lines of one category. *)
Inductive Channel :=
  | EnhancedLog
  | Status (category : string).

(** A registered callback.  The callbacks here are the bound methods
    [controller._handle_status_event], named by the position of their
    controller. *)
Record Subscription := mkSubscription {
  sub_id : nat;
  callback : nat;
  channel : Channel
}.

Record EventStream := mkEventStream {
  subscriptions : list Subscription;
  next_id : nat;
  enhanced_log : bool
}.

#[global] Instance StatusType_eq_dec : EqDecision StatusType.
Proof. solve_decision. Defined.
#[global] Instance Channel_eq_dec : EqDecision Channel.
Proof. solve_decision. Defined.
#[global] Instance Subscription_eq_dec : EqDecision Subscription.
Proof. solve_decision. Defined.

(** Modelled from the spec: the event stream is not part of the sources.
    "subscribeStatus(callback, category) -> unsubscribeFn registers a
    callback"; the unsubscribe function is named by the id of the
    subscription it removes. *)
Definition subscribe (cb : nat) (ch : Channel) (es : EventStream)
    : EventStream * nat :=
  (mkEventStream (subscriptions es ++ [mkSubscription (next_id es) cb ch])
                 (S (next_id es)) (enhanced_log es),
   next_id es).

Definition subscribe_status (cb : nat) (category : string) :=
  subscribe cb (Status category).

Definition subscribe_enhanced_log (cb : nat) := subscribe cb EnhancedLog.

Definition unsubscribe (id : nat) (es : EventStream) : EventStream :=
  mkEventStream (filter (λ s, sub_id s ≠ id) (subscriptions es))
                (next_id es) (enhanced_log es).

(** The controller classes: [ButtonsController] overrides
    [enable_state_monitoring]; the others inherit everything. *)
Inductive Class :=
  | ButtonsController
  | EnclosuresController
  | OtherController (name : string).

#[global] Instance Class_eq_dec : EqDecision Class.
Proof. solve_decision. Defined.

Section Controller.
Context {Obj : Type}.
(** [obj.vid] and [obj.vantage_type()] *)
Variable obj_vid : Obj → Z.
Variable obj_type : Obj → string.
(** What fetching the state of one object leaves in it. *)
Variable fetch_object : Obj → Obj.

Record Controller := mkController {
  class : Class;
  vantage_types : list string;
  status_categories : list string;
  objects : gmap Z Obj;
  _initialized : bool;
  _status_type : option StatusType;
  _status_unsubs : list nat
}.

(** A controller as its constructor leaves it. *)
Definition new_controller (cls : Class) (types categories : list string)
    : Controller :=
  mkController cls types categories ∅ false None [].

Definition buttons_controller : Controller :=
  new_controller ButtonsController ["Button"] ["BTN"; "LED"].

Definition enclosures_controller : Controller :=
  new_controller EnclosuresController ["Enclosure"] [].

(** The discovery collaborator: the objects the live controller knows,
    and the type filters it has been queried with. *)
Record ConfigClient := mkConfigClient {
  live : list Obj;
  queries : list (list string)
}.

Definition get_objects (types : list string) (cfg : ConfigClient)
    : ConfigClient * list Obj :=
  (mkConfigClient (live cfg) (queries cfg ++ [types]),
   filter (λ o, obj_type o ∈ types) (live cfg)).

(** [vid in controller] and [controller[vid]] *)
Definition contains (c : Controller) (vid : Z) : bool :=
  bool_decide (is_Some (objects c !! vid)).

Definition getitem (c : Controller) (vid : Z) : result Obj :=
  match objects c !! vid with
  | Some obj => Ok obj
  | None => Raise (KeyError (KInt vid))
  end.

Definition add_object (objs : gmap Z Obj) (obj : Obj) : gmap Z Obj :=
  <[obj_vid obj := obj]> objs.

(** Modelled from the spec: [Controller.inject] is in
    [_controllers/base.py], which is not part of the sources.  It
    "pre-populates a single Object ... and marks the controller as already
    populated for its type"; [Vantage._inject_from_file] documents the
    mark as [_initialized = True]. *)
Definition inject (obj : Obj) (c : Controller) : Controller :=
  mkController (class c) (vantage_types c) (status_categories c)
    (add_object (objects c) obj) true (_status_type c) (_status_unsubs c).

(** Modelled from the spec: the discovery step of [Controller.initialize].
    "If pre-population already occurred ..., skip live discovery for this
    type entirely; otherwise query the discovery collaborator for all
    objects of the declared [vantage_types]". *)
Definition populate (c : Controller) (cfg : ConfigClient)
    : Controller * ConfigClient :=
  if _initialized c then (c, cfg)
  else
    let r := get_objects (vantage_types c) cfg in
    (mkController (class c) (vantage_types c) (status_categories c)
       (fold_left add_object r.2 (objects c)) true
       (_status_type c) (_status_unsubs c),
     r.1).

(** Modelled from the spec: [Controller.fetch_state] "fetches state for
    every owned object". *)
Definition fetch_state (c : Controller) : Controller :=
  mkController (class c) (vantage_types c) (status_categories c)
    (fetch_object <$> objects c) (_initialized c)
    (_status_type c) (_status_unsubs c).

Definition set_monitoring (c : Controller) (st : option StatusType)
    (unsubs : list nat) : Controller :=
  mkController (class c) (vantage_types c) (status_categories c)
    (objects c) (_initialized c) st unsubs.

(** One [subscribe_status] per category, the unsubscribe functions kept in
    order. *)
Fixpoint subscribe_categories (cb : nat) (categories : list string)
    (es : EventStream) : EventStream * list nat :=
  match categories with
  | [] => (es, [])
  | category :: rest =>
      let r := subscribe_status cb category es in
      let rs := subscribe_categories cb rest r.1 in
      (rs.1, r.2 :: rs.2)
  end.

(** Modelled from the spec: the base [enable_state_monitoring] is in
    [_controllers/base.py], which is not part of the sources.  It
    "determines StatusType ... prefer a consolidated enhanced log feed if
    the remote firmware advertises it, else fall back to per-category
    STATUS subscriptions", "stores the resulting unsubscribe functions",
    and "re-entrant calls are idempotent": a controller that is already
    monitoring returns at once.  [self_] is the position of the controller
    whose handler is subscribed. *)
Definition Controller_enable_state_monitoring (self_ : nat) (c : Controller)
    (es : EventStream) : Controller * EventStream :=
  match _status_type c with
  | Some _ => (c, es)
  | None =>
      if enhanced_log es then
        let r := subscribe_enhanced_log self_ es in
        (set_monitoring c (Some OBJECT) (_status_unsubs c ++ [r.2]), r.1)
      else
        let r := subscribe_categories self_ (status_categories c) es in
        (set_monitoring c (Some CATEGORY) (_status_unsubs c ++ r.2), r.1)
  end.

(** [ButtonsController.enable_state_monitoring] *)
Definition ButtonsController_enable_state_monitoring (self_ : nat)
    (c : Controller) (es : EventStream) : Controller * EventStream :=
  let r := Controller_enable_state_monitoring self_ c es in
  if decide (_status_type r.1 = Some OBJECT) then
    let led_unsub := subscribe_status self_ "LED" r.2 in
    (set_monitoring r.1 (_status_type r.1) (_status_unsubs r.1 ++ [led_unsub.2]),
     led_unsub.1)
  else r.

(** Method resolution: the override for buttons, the base otherwise. *)
Definition enable_state_monitoring (self_ : nat) (c : Controller)
    (es : EventStream) : Controller * EventStream :=
  match class c with
  | ButtonsController => ButtonsController_enable_state_monitoring self_ c es
  | _ => Controller_enable_state_monitoring self_ c es
  end.

(** Modelled from the spec: [disable_state_monitoring] "invokes every
    stored unsubscribe function and clears the list". *)
Definition disable_state_monitoring (c : Controller) (es : EventStream)
    : Controller * EventStream :=
  (set_monitoring c None [], fold_left (λ e id, unsubscribe id e) (_status_unsubs c) es).

(** Modelled from the spec: [Controller.initialize]: the discovery step,
    "then, if requested, call fetchState() and enableStateMonitoring()". *)
Definition initialize (fetch enable : bool) (self_ : nat) (c : Controller)
    (cfg : ConfigClient) (es : EventStream)
    : Controller * ConfigClient * EventStream :=
  let p := populate c cfg in
  let c1 := if fetch then fetch_state p.1 else p.1 in
  let m := if enable then enable_state_monitoring self_ c1 es else (c1, es) in
  (m.1, p.2, m.2).

End Controller.
End Controller.

(** ** [__init__.py]: the Vantage client *)

Module Vantage.
Import FileLoader Controller.

(** The file behind [local_config_file]: whether the path is a file, and
    what [ElementTree.parse] makes of it. *)
Record ConfigFile := mkConfigFile {
  is_file : bool;
  parsed : result Element
}.

Section Vantage.
Context {Cls Obj : Type}.
Variable obj_vid : Obj → Z.
Variable obj_type : Obj → string.
Variable fetch_object : Obj → Obj.
Variable type_map : string → option Cls.
Variable tostring : Element → string.
Variable from_string : string → Cls → result Obj.

(** The client.  [_controllers] is a Python set; it is given in the order
    in which the set iterates. *)
Record Vantage := mkVantage {
  _controllers : list (@Controller Obj);
  _local_config_file : option ConfigFile;
  config_client : @ConfigClient Obj;
  event_stream : EventStream
}.

Fixpoint getitem_from (controllers : list (@Controller Obj)) (vid : Z)
    : result Obj :=
  match controllers with
  | [] => Raise (KeyError (KInt vid))
  | controller :: rest =>
      if Controller.contains controller vid
      then Controller.getitem controller vid
      else getitem_from rest vid
  end.

(** [Vantage.__getitem__] *)
Definition getitem (v : Vantage) (vid : Z) : result Obj :=
  getitem_from (_controllers v) vid.

(** [Vantage.__contains__] *)
Definition contains (v : Vantage) (vid : Z) : bool :=
  existsb (λ controller, Controller.contains controller vid) (_controllers v).

(** [Vantage.__iter__] *)
Definition iter (v : Vantage) : list Obj :=
  flat_map (λ controller, (map_to_list (objects controller)).*2) (_controllers v).

(** [Vantage.get]: only [KeyError] is caught. *)
Definition get (v : Vantage) (vid : Z) : result (option Obj) :=
  match getitem v vid with
  | Ok obj => Ok (Some obj)
  | Raise (KeyError _) => Ok None
  | Raise e => Raise e
  end.

(** The dict [type_to_controller] of [_inject_from_file]; a controller is
    referred to by its position. *)
Definition type_to_controller (controllers : list (@Controller Obj))
    : gmap string nat :=
  fold_left
    (λ m ic, fold_left (λ m' type_name, <[type_name := ic.1]> m')
                       (vantage_types ic.2) m)
    (imap pair controllers) ∅.

(** One iteration of the loop over the objects of the file. *)
Definition inject_object (routes : gmap string nat)
    (acc : list (@Controller Obj) * Z) (obj : Obj) : list (@Controller Obj) * Z :=
  match routes !! obj_type obj with
  | Some i => (alter (inject obj_vid obj) i acc.1, acc.2 + 1)
  | None => acc
  end.

(** [Vantage._inject_from_file]; the result is the count that is logged. *)
Definition _inject_from_file (file : ConfigFile) (v : Vantage)
    : Vantage * result Z :=
  let routes := type_to_controller (_controllers v) in
  match iter_objects type_map tostring from_string (parsed file) with
  | Raise e => (v, Raise e)
  | Ok objs =>
      let r := fold_left (inject_object routes) objs (_controllers v, 0) in
      (mkVantage r.1 (_local_config_file v) (config_client v) (event_stream v),
       Ok r.2)
  end.

(** [asyncio.gather] over [controller.initialize(...)]; the controllers
    only share the clients, and are run here one after the other. *)
Fixpoint initialize_all (fetch enable : bool) (self_ : nat)
    (controllers : list (@Controller Obj)) (cfg : @ConfigClient Obj)
    (es : EventStream) : list (@Controller Obj) * @ConfigClient Obj * EventStream :=
  match controllers with
  | [] => ([], cfg, es)
  | controller :: rest =>
      let r := Controller.initialize obj_vid obj_type fetch_object
                 fetch enable self_ controller cfg es in
      let rs := initialize_all fetch enable (S self_) rest r.1.2 r.2 in
      (r.1.1 :: rs.1.1, rs.1.2, rs.2)
  end.

(** [Vantage.initialize] *)
Definition initialize (fetch_state enable_state_monitoring : bool) (v : Vantage)
    : Vantage * result unit :=
  let injected :=
    match _local_config_file v with
    | Some file => if is_file file then _inject_from_file file v else (v, Ok 0)
    | None => (v, Ok 0)
    end in
  match injected with
  | (v1, Raise e) => (v1, Raise e)
  | (v1, Ok _) =>
      let r := initialize_all fetch_state enable_state_monitoring 0
                 (_controllers v1) (config_client v1) (event_stream v1) in
      (mkVantage r.1.1 (_local_config_file v1) r.1.2 r.2, Ok tt)
  end.

Fixpoint enable_all (self_ : nat) (controllers : list (@Controller Obj))
    (es : EventStream) : list (@Controller Obj) * EventStream :=
  match controllers with
  | [] => ([], es)
  | controller :: rest =>
      let r := Controller.enable_state_monitoring self_ controller es in
      let rs := enable_all (S self_) rest r.2 in
      (r.1 :: rs.1, rs.2)
  end.

(** [Vantage.enable_state_monitoring] *)
Definition enable_state_monitoring (v : Vantage) : Vantage :=
  let r := enable_all 0 (_controllers v) (event_stream v) in
  mkVantage r.1 (_local_config_file v) (config_client v) r.2.

End Vantage.
End Vantage.

(** ** Concrete objects and worlds *)

Module Examples.
Import CommandClient ButtonInterface.

(** A cache and an update that changes [b], adds [c] and repeats [a]. *)
Definition small_cache : gmap string Z := <["a" := 1]> (<["b" := 2]> ∅).

Definition small_update : list (string * Z) := [("a", 1); ("b", 5); ("c", 7)].

Definition getled_line : string := "R:GETLED 447 1 255 0 0 0 0 0 OFF".

Definition led_names : list string :=
  ["led_active_color"; "led_inactive_color"; "led_blink_rate"].

(** Button 447 as the constructor leaves it, bound to a command client. *)
Definition button447 : Button := new_button 447 true.

(** The controller reports the button released, then answers [GETLED]. *)
Definition world_released : World :=
  mkWorld [] [Response ["R:INVOKE 447 Up Button.GetState"];
              Response [getled_line]] [].

(** The controller reports the button held down, then answers [GETLED]. *)
Definition world_held : World :=
  mkWorld [] [Response ["R:INVOKE 447 Down Button.GetState"];
              Response [getled_line]] [].

(** The controller accepts [SetState] and then reports the button up
    again (it was released in between). *)
Definition world_set_then_up : World :=
  mkWorld [] [Response ["R:INVOKE 447 0 Button.SetState Down"];
              Response ["R:INVOKE 447 Up Button.GetState"]] [].

(** The controller accepts [SetState] and reports the button down. *)
Definition world_set_then_down : World :=
  mkWorld [] [Response ["R:INVOKE 447 0 Button.SetState Down"];
              Response ["R:INVOKE 447 Down Button.GetState"]] [].

(** [GetState] fails with a command error; [GETLED] is answered. *)
Definition world_state_fails : World :=
  mkWorld [] [Failure CommandError; Response [getled_line]] [].


(** Button 447 after a fetch that found it held down. *)
Definition held_button447 : Button :=
  mkButton 447 true (<["state" := VState Down]> default_props).

(** Button 447 without a command client. *)
Definition unbound_button : Button := new_button 447 false.

(** The controller acknowledges one request. *)
Definition world_ack : World := mkWorld [] [Response ["R:LED 447"]] [].

(** The controller refuses one request. *)
Definition world_refuses : World := mkWorld [] [Failure CommandError] [].

(** The controller accepts [SetState] twice. *)
Definition world_press_release : World :=
  mkWorld [] [Response ["R:INVOKE 447 0 Button.SetState Down"];
              Response ["R:INVOKE 447 0 Button.SetState Up"]] [].

(** [GetState] reports the button up; the [GETLED] answer is cut short. *)
Definition world_led_truncated : World :=
  mkWorld [] [Response ["R:INVOKE 447 Up Button.GetState"];
              Response ["R:GETLED 447 1 255 0"]] [].

(** [GetState] reports the button down; [GETLED] returns no line. *)
Definition world_led_empty : World :=
  mkWorld [] [Response ["R:INVOKE 447 Down Button.GetState"]; Response []] [].

(** *** A snapshot file *)

Import FileLoader.

(** The dataclasses known to the loader, and the objects it yields. *)
Inductive Cls := LoadCls | ButtonCls | AreaCls.

Record SystemObject := mkSystemObject {
  obj_cls : Cls;
  obj_id : Z
}.

Definition vantage_type (o : SystemObject) : string :=
  match obj_cls o with
  | LoadCls => "Load"
  | ButtonCls => "Button"
  | AreaCls => "Area"
  end.

Definition type_map (name : string) : option Cls :=
  if decide (name = "Load") then Some LoadCls
  else if decide (name = "Button") then Some ButtonCls
  else if decide (name = "Area") then Some AreaCls
  else None.

(** A serialisation that keeps the tag and the [VID] attribute. *)
Definition tostring (e : Element) : string :=
  match e with
  | Elem t attrib _ _ =>
      t +:+ " " +:+ default "" (snd <$> List.find (λ kv, bool_decide (kv.1 = "VID")) attrib)
  end.

(** A parser that needs an integer [VID]. *)
Definition from_string (xml_str : string) (cls : Cls) : result SystemObject :=
  match tokenize xml_str with
  | [_; v] =>
      match int v with
      | Ok z => Ok (mkSystemObject cls z)
      | Raise e => Raise e
      end
  | _ => Raise ParseError
  end.

Definition object_elem (type_name : string) (vid_attr : string) : Element :=
  Elem "Object" [] "" [Elem type_name [("VID", vid_attr)] "" []].

Definition good_load : Element := object_elem "Load" "447".
Definition wire_link : Element := object_elem "WireLink" "9".
Definition corrupt_button : Element := object_elem "Button" "4x7".
Definition empty_object : Element := Elem "Object" [] "" [].
Definition good_button : Element := object_elem "Button" "12".

Definition snapshot : Element :=
  Elem "Project" [("FileVersion", "1")] ""
    [Elem "ProjectInfo" [] "" [];
     Elem "Objects" [] ""
       [good_load; wire_link; corrupt_button; empty_object; good_button]].

(** What [ElementTree.parse] makes of the file of [snapshot] when the
    text of its last record holds an unescaped [&], or when the file is cut
    off inside that record: the file is not well-formed XML. *)
Definition damaged_snapshot : result Element := Raise ParseError.

(** The names exported by the objects module: two classes with the same
    Vantage type, something that is not a class, a class that is not a
    system object, and a missing attribute. *)
Definition exports : list (option (Export Cls)) :=
  [Some (Class LoadCls true); Some NotAType; Some (Class AreaCls false);
   None; Some (Class ButtonCls true)].

Definition cls_type (c : Cls) : string :=
  match c with
  | LoadCls => "Load"
  | ButtonCls => "Button"
  | AreaCls => "Area"
  end.

(** A snapshot with an [<Object>] nested in the typed element of
    another. *)
Definition nested_snapshot : Element :=
  Elem "Project" [] ""
    [Elem "Objects" [] ""
       [Elem "Object" [] ""
          [Elem "Area" [("VID", "125")] "" [good_button]];
        good_load]].

(** A backup whose [<ProjectInfo>] records two controllers among other
    elements. *)
Definition controller1_info : Element :=
  controller_elem 1
    [Elem "IPAddress" [] "  192.168.0.200 " [];
     Elem "MACAddress" [] "   " [];
     Elem "Firmware" [] "3.9.1" []].

Definition controller2466_info : Element :=
  controller_elem 2466 [Elem "IPAddress" [] "192.168.0.201" []].

Definition backup : Element :=
  Elem "Project" [] ""
    [Elem "ProjectInfo" [] ""
       [Elem "Name" [] "House" [];
        controller1_info;
        Elem "ControllerInfo" [] "" [];
        Elem "ControllerAInfo" [] "" [];
        controller2466_info];
     Elem "Objects" [] "" [good_load]].

(** *** A client with two controllers *)

Import Controller.

Definition loads_controller : @Controller SystemObject :=
  new_controller (OtherController "LoadsController") ["Load"] ["LOAD"].

Definition areas_controller : @Controller SystemObject :=
  new_controller (OtherController "AreasController") ["Area"] [].

Definition buttons : @Controller SystemObject := buttons_controller.

Definition fetch_object (o : SystemObject) : SystemObject := o.

(** A client whose loads controller holds load 447 and whose buttons
    controller holds button 12. *)
Definition populated_client : @Vantage.Vantage SystemObject :=
  Vantage.mkVantage
    [inject obj_id (mkSystemObject LoadCls 447) loads_controller;
     inject obj_id (mkSystemObject ButtonCls 12) buttons]
    None (mkConfigClient [] []) (mkEventStream [] 0 true).

(** A new client given the snapshot file; the live controller knows area
    125 and load 500. *)
Definition cold_client : @Vantage.Vantage SystemObject :=
  Vantage.mkVantage [loads_controller; buttons; areas_controller]
    (Some (Vantage.mkConfigFile true (Ok snapshot)))
    (mkConfigClient [mkSystemObject AreaCls 125; mkSystemObject LoadCls 500] [])
    (mkEventStream [] 0 true).



(** Two controllers that declare the type [Load]. *)
Definition rgb_loads_controller : @Controller SystemObject :=
  new_controller (OtherController "RGBLoadsController")
    ["Vantage.DGColorLoad"; "Load"] ["LOAD"].

Definition overlapping_controllers : list (@Controller SystemObject) :=
  [loads_controller; buttons; rgb_loads_controller].

(** Event streams that already carry a subscription of another
    controller, with and without the enhanced log. *)
Definition busy_stream : EventStream :=
  mkEventStream [mkSubscription 0 7 (Status "LOAD")] 1 true.

Definition busy_stream_legacy : EventStream :=
  mkEventStream [mkSubscription 0 7 (Status "LOAD")] 1 false.

End Examples.

(** * Part II: verified properties *)

(** ** Properties of the cache *)

Section CacheFacts.
Context {V : Type} `{EqDecision V}.
Import Interface.

Lemma filter_ext_elem {A} (P Q : A → Prop)
    `{∀ x, Decision (P x)} `{∀ x, Decision (Q x)} (l : list A) :
  (∀ x, x ∈ l → P x ↔ Q x) → filter P l = filter Q l.
Proof.
  induction l as [|x l IH]; intros Hl; [done|].
  rewrite !filter_cons.
  rewrite IH by (intros y Hy; apply Hl; by right).
  destruct (decide (P x)) as [HP|HP], (decide (Q x)) as [HQ|HQ]; try done.
  - exfalso. apply HQ, Hl; [by left|done].
  - exfalso. apply HP, Hl; [by left|done].
Qed.

Lemma fold_update_changed (new : list (string * V)) cache acc :
  (fold_left update_property new (cache, acc)).2
  = acc ++ (fold_left update_property new (cache, [])).2.
Proof.
  revert cache acc. induction new as [|kv new IH]; intros cache acc; simpl.
  - by rewrite app_nil_r.
  - unfold update_property at 2 4; simpl.
    destruct (decide (cache !! kv.1 = Some kv.2)); simpl.
    + apply IH.
    + rewrite (IH _ (acc ++ [kv.1])), (IH _ [kv.1]). by rewrite app_assoc.
Qed.

Lemma fold_update_cache (new : list (string * V)) cache acc :
  (fold_left update_property new (cache, acc)).1
  = (fold_left update_property new (cache, [])).1.
Proof.
  revert cache acc. induction new as [|kv new IH]; intros cache acc; simpl.
  - done.
  - unfold update_property at 2 4; simpl.
    destruct (decide (cache !! kv.1 = Some kv.2)); simpl.
    + apply IH.
    + rewrite (IH _ (acc ++ [kv.1])), (IH _ [kv.1]). done.
Qed.

Lemma update_properties_nil (cache : gmap string V) :
  update_properties cache [] = (cache, []).
Proof. done. Qed.

Lemma update_properties_cons_same (cache : gmap string V) k v new :
  cache !! k = Some v →
  update_properties cache ((k, v) :: new) = update_properties cache new.
Proof.
  intros Hkv. unfold update_properties; simpl.
  replace (update_property (cache, []) (k, v)) with (cache, @nil string); [done|].
  unfold update_property; simpl. by rewrite decide_True.
Qed.

Lemma update_properties_cons_diff (cache : gmap string V) k v new :
  cache !! k ≠ Some v →
  update_properties cache ((k, v) :: new)
  = ((update_properties (<[k := v]> cache) new).1,
     k :: (update_properties (<[k := v]> cache) new).2).
Proof.
  intros Hkv. unfold update_properties; simpl.
  replace (update_property (cache, []) (k, v)) with (<[k := v]> cache, [k]).
  - rewrite (surjective_pairing (fold_left _ _ _)). f_equal.
    + apply fold_update_cache.
    + apply (fold_update_changed new (<[k := v]> cache) [k]).
  - unfold update_property; simpl. by rewrite decide_False.
Qed.

(** Looking a key up after an update: the new value when the dict has
    the key, the old one otherwise. *)
Lemma update_properties_lookup (new : list (string * V)) :
  NoDup new.*1 →
  ∀ (cache : gmap string V) k,
    (update_properties cache new).1 !! k
    = match list_to_map (M := gmap string V) new !! k with
      | Some v => Some v
      | None => cache !! k
      end.
Proof.
  induction new as [|[k0 v0] new IH]; intros Hnd cache k.
  - rewrite update_properties_nil. simpl. by rewrite lookup_empty.
  - apply NoDup_cons in Hnd as [Hk0 Hnd]. simpl.
    assert (Hfresh : list_to_map (M := gmap string V) new !! k0 = None)
      by by apply not_elem_of_list_to_map_1.
    destruct (decide (cache !! k0 = Some v0)) as [Heq|Hne].
    + rewrite update_properties_cons_same, IH by done.
      destruct (decide (k0 = k)) as [<-|Hk].
      * by rewrite lookup_insert_eq, Hfresh.
      * by rewrite lookup_insert_ne.
    + rewrite update_properties_cons_diff by done. simpl.
      rewrite IH by done.
      destruct (decide (k0 = k)) as [<-|Hk].
      * by rewrite !lookup_insert_eq, Hfresh.
      * by rewrite !lookup_insert_ne.
Qed.

Lemma update_properties_changed (new : list (string * V)) :
  NoDup new.*1 →
  ∀ cache : gmap string V,
    (update_properties cache new).2 = (differing cache new).*1.
Proof.
  unfold differing.
  induction new as [|[k0 v0] new IH]; intros Hnd cache; [done|].
  apply NoDup_cons in Hnd as [Hk0 Hnd].
  assert (Hfil : ∀ c' : gmap string V, (∀ k, k ≠ k0 → c' !! k = cache !! k) →
            filter (λ kv, c' !! kv.1 ≠ Some kv.2) new
            = filter (λ kv, cache !! kv.1 ≠ Some kv.2) new).
  { intros c' Hc'. apply filter_ext_elem. intros [k v] Hin; simpl.
    rewrite Hc'; [done|]. intros ->. apply Hk0.
    apply list_elem_of_fmap. by exists (k0, v). }
  destruct (decide (cache !! k0 = Some v0)) as [Heq|Hne].
  - rewrite update_properties_cons_same, IH by done.
    rewrite filter_cons_False; [done|]. simpl. by intros ?.
  - rewrite update_properties_cons_diff by done. simpl.
    rewrite IH by done. rewrite filter_cons_True by done. simpl. f_equal.
    f_equal. apply Hfil. intros k Hk. by rewrite lookup_insert_ne.
Qed.

(** Every entry of the dict is in the cache after the call, so a second
    call with the same dict finds nothing to write. *)
Lemma update_properties_fixpoint (new : list (string * V)) (cache : gmap string V) :
  (∀ k v, (k, v) ∈ new → cache !! k = Some v) →
  update_properties cache new = (cache, []).
Proof.
  induction new as [|[k0 v0] new IH]; intros Hall; [done|].
  rewrite update_properties_cons_same.
  - apply IH. intros k v Hin. apply Hall. by right.
  - apply Hall. by left.
Qed.
End CacheFacts.

(** C1.  Whatever the cache holds (so after any history of calls), a call of
    [update_properties] with a dict [new] returns exactly the names whose
    new value differs from the cached one, in the order of the dict; it
    writes those entries and no other; and a second call with the same dict
    returns the empty list and leaves the cache as it is. *)
Theorem update_properties_exact {V : Type} `{EqDecision V}
    (cache : gmap string V) (new : list (string * V)) :
  NoDup new.*1 →
  let r := Interface.update_properties cache new in
  r.2 = (Interface.differing cache new).*1
  ∧ (∀ k, r.1 !! k = if decide (k ∈ r.2)
                      then list_to_map (M := gmap string V) new !! k
                      else cache !! k)
  ∧ Interface.update_properties r.1 new = (r.1, [])
  ∧ Interface.update_sequence cache [new; new] = (r.1, [r.2; []]).
Proof.
  intros Hnd r.
  assert (Hchanged : r.2 = (Interface.differing cache new).*1)
    by by apply update_properties_changed.
  assert (Hlook := update_properties_lookup new Hnd cache). fold r in Hlook.
  assert (Hfix : Interface.update_properties r.1 new = (r.1, [])).
  { apply update_properties_fixpoint. intros k v Hin.
    rewrite Hlook. by rewrite (elem_of_list_to_map_1 new k v). }
  split_and!; [done| |done|].
  - intros k. rewrite Hlook, Hchanged. unfold Interface.differing.
    destruct (list_to_map (M := gmap string V) new !! k) as [v|] eqn:Hk.
    + apply elem_of_list_to_map in Hk; [|done].
      case_decide as Hin; [done|].
      destruct (decide (cache !! k = Some v)) as [Heq|Hne]; [done|].
      exfalso. apply Hin. apply list_elem_of_fmap. exists (k, v). split; [done|].
      apply list_elem_of_filter. done.
    + case_decide as Hin; [|done]. exfalso.
      apply not_elem_of_list_to_map in Hk. apply Hk.
      apply list_elem_of_fmap in Hin as ([k' v'] & -> & Hin).
      apply list_elem_of_filter in Hin as [_ Hin].
      apply list_elem_of_fmap. by exists (k', v').
  - simpl. fold r. rewrite Hfix. done.
Qed.

Lemma update_properties_exact_witness :
  (Interface.update_properties Examples.small_cache Examples.small_update).2
    = ["b"; "c"]
  ∧ Interface.update_properties
      (Interface.update_properties Examples.small_cache Examples.small_update).1
      Examples.small_update
    = ((Interface.update_properties Examples.small_cache Examples.small_update).1, []).
Proof.
  assert (Hnd : NoDup Examples.small_update.*1)
    by (apply (bool_decide_unpack _); vm_compute; exact I).
  destruct (update_properties_exact Examples.small_cache Examples.small_update Hnd)
    as (H1 & _ & H3 & _).
  split; [|exact H3].
  rewrite H1. vm_compute. reflexivity.
Defined.

(** ** The button interface *)

Section ButtonFacts.
Import CommandClient ButtonInterface.

Lemma raw_request_unfold (line : string) (w : World) :
  raw_request line w
  = (mkWorld (sent w ++ [line]) (tail (script w)) (log w),
     match script w with
     | [] => Raise TimeoutError
     | Response lines :: _ => Ok lines
     | Failure e :: _ => Raise e
     end).
Proof. unfold raw_request. by destruct (script w) as [|[lines|e] rest]. Qed.

Lemma invoke_unfold {A} (decode : string → option A) vid method params (w : World) :
  CommandClient.invoke decode vid method params w
  = (mkWorld (sent w ++ [invoke_line vid method params]) (tail (script w)) (log w),
     next_reply decode vid method w).
Proof.
  unfold CommandClient.invoke, next_reply, bind. rewrite raw_request_unfold.
  by destruct (script w) as [|[lines|e] rest].
Qed.

Lemma update_properties_single {V : Type} `{EqDecision V}
    (cache : gmap string V) k v :
  Interface.update_properties cache [(k, v)]
  = if decide (cache !! k = Some v) then (cache, []) else (<[k := v]> cache, [k]).
Proof.
  unfold Interface.update_properties, Interface.update_property; simpl.
  by destruct (decide (cache !! k = Some v)).
Qed.

(** After an update, a name holds its old value or one of the new ones. *)
Lemma update_properties_origin {V : Type} `{EqDecision V}
    (new : list (string * V)) (cache : gmap string V) k :
  (Interface.update_properties cache new).1 !! k = cache !! k
  ∨ ∃ v, (k, v) ∈ new ∧ (Interface.update_properties cache new).1 !! k = Some v.
Proof.
  revert cache. induction new as [|[k0 v0] new IH]; intros cache; [by left|].
  destruct (decide (cache !! k0 = Some v0)) as [Heq|Hne].
  - rewrite update_properties_cons_same by done.
    destruct (IH cache) as [Hl|(v & Hin & Hl)]; [by left|].
    right. exists v. split; [by right|done].
  - rewrite update_properties_cons_diff by done. simpl.
    destruct (IH (<[k0 := v0]> cache)) as [Hl|(v & Hin & Hl)].
    + destruct (decide (k0 = k)) as [->|Hk].
      * right. exists v0. split; [by left|]. by rewrite Hl, lookup_insert_eq.
      * left. by rewrite Hl, lookup_insert_ne.
    + right. exists v. split; [by right|done].
Qed.

Lemma evolves_refl b : evolves b b.
Proof. by split_and!. Qed.

Lemma evolves_trans b1 b2 b3 : evolves b1 b2 → evolves b2 b3 → evolves b1 b3.
Proof.
  intros (Hv1 & Hc1 & Hk1) (Hv2 & Hc2 & Hk2). split_and!; [congruence..|].
  intros k Hk. by apply Hk2, Hk1.
Qed.

Lemma steady_ret {A} (a : A) : steady (ret a).
Proof. intros s. apply evolves_refl. Qed.

Lemma steady_raise {A} e : steady (@raise Env A e).
Proof. intros s. apply evolves_refl. Qed.

Lemma steady_of_result {A} (r : result A) : steady (of_result r).
Proof. intros s. apply evolves_refl. Qed.

Lemma steady_get_self : steady get_self.
Proof. intros s. apply evolves_refl. Qed.

Lemma steady_lift_world {A} (m : M World A) : steady (lift_world m).
Proof. intros s. apply evolves_refl. Qed.

Lemma steady_bind {A B} (m : M Env A) (f : A → M Env B) :
  steady m → (∀ a, steady (f a)) → steady (bind m f).
Proof.
  intros Hm Hf s. unfold bind. specialize (Hm s).
  destruct (m s) as [s1 [a|e]]; simpl in *; [|done].
  eapply evolves_trans; [exact Hm|apply Hf].
Qed.

Lemma steady_try_except {A} (m : M Env A) (h : Exc → M Env A) :
  steady m → (∀ e, steady (h e)) → steady (try_except m h).
Proof.
  intros Hm Hh s. unfold try_except. specialize (Hm s).
  destruct (m s) as [s1 [a|e]]; simpl in *; [done|].
  eapply evolves_trans; [exact Hm|apply Hh].
Qed.

Lemma steady_update_properties (new : list (string * Value)) :
  (∀ k v, (k, v) ∈ new → v ≠ VNone) → steady (update_properties new).
Proof.
  intros Hnew s. unfold update_properties; simpl. split_and!; [done..|].
  intros k (v & Hv & Hknown); unfold known; simpl.
  destruct (update_properties_origin new (props (self s)) k) as [Hl|(v' & Hin & Hl)].
  - exists v. by rewrite Hl.
  - exists v'. split; [done|]. by eapply Hnew.
Qed.
Lemma led_properties_known active inactive rate k v :
  (k, v) ∈ led_properties active inactive rate → v ≠ VNone.
Proof.
  unfold led_properties. rewrite !elem_of_cons, elem_of_nil.
  intros [?|[?|[?|[]]]]; by simplify_eq.
Qed.

Lemma state_property_known (st : State) k v :
  (k, v) ∈ [("state", VState st)] → v ≠ VNone.
Proof. rewrite list_elem_of_singleton. intros ?; by simplify_eq. Qed.

Ltac steady_step :=
  first
    [ apply steady_ret | apply steady_raise | apply steady_of_result
    | apply steady_get_self | apply steady_lift_world
    | apply steady_update_properties;
        first [ apply led_properties_known | apply state_property_known ]
    | apply steady_bind; [|intros ?]
    | apply steady_try_except; [|intros ?]
    | match goal with
      | |- steady (if ?c then _ else _) => destruct c
      | |- steady (match ?x with _ => _ end) => destruct x
      | |- steady (let '(_, _) := ?x in _) => destruct x
      end ].

Lemma steady_invoke {A} (decode : string → option A) method params :
  steady (ButtonInterface.invoke decode method params).
Proof. unfold ButtonInterface.invoke. repeat steady_step. Qed.

Lemma steady_get_state hw : steady (get_state hw).
Proof. apply steady_invoke. Qed.



Lemma steady_led_update r1 g1 b1 r2 g2 b2 blink_str :
  steady (led_update r1 g1 b1 r2 g2 b2 blink_str).
Proof. unfold led_update. repeat steady_step. Qed.

Lemma steady_fetch_getters getters :
  (∀ prop getter, (prop, getter) ∈ getters →
     steady getter ∧ ∀ s, ∀ v, (getter s).2 = Ok v → v ≠ VNone) →
  steady (fetch_getters getters).
Proof.
  induction getters as [|[prop getter] getters IH]; intros Hg; simpl.
  - apply steady_ret.
  - destruct (Hg prop getter (list_elem_of_here _ _)) as [Hsteady Hvalue].
    apply steady_bind; [|intros changed; apply steady_bind; [|intros ?; apply steady_ret]].
    + intros s. unfold try_except, bind.
      specialize (Hsteady s). specialize (Hvalue s).
      destruct (getter s) as [s1 [v|e]]; simpl in *.
      * eapply evolves_trans; [exact Hsteady|].
        apply steady_update_properties. intros k v' Hin.
        apply list_elem_of_singleton in Hin. simplify_eq. by apply Hvalue.
      * eapply evolves_trans; [exact Hsteady|].
        unfold skip_failed_property. destruct e; repeat steady_step.
    + apply IH. intros p g Hin. apply (Hg p g). by right.
Qed.

Lemma steady_Interface_fetch_state : steady Interface_fetch_state.
Proof.
  unfold Interface_fetch_state. apply steady_bind; [apply steady_get_self|intros b].
  destruct (negb (command_client b)); [apply steady_ret|].
  apply steady_fetch_getters. intros prop getter Hin.
  apply list_elem_of_singleton in Hin. simplify_eq. split.
  - apply steady_bind; [apply steady_get_state|intros ?; apply steady_ret].
  - intros s v. unfold bind, ret. destruct (get_state false s) as [s1 [st|e]]; simpl; [|done].
    intros ?; by simplify_eq.
Qed.

Lemma steady_fetch_state : steady fetch_state.
Proof.
  unfold fetch_state.
  apply steady_bind; [apply steady_Interface_fetch_state|intros changed].
  apply steady_bind; [apply steady_get_self|intros b].
  destruct (negb (command_client b)); [apply steady_ret|].
  apply steady_try_except.
  - apply steady_bind; [apply steady_lift_world|intros response].
    apply steady_bind; [destruct (last response); repeat steady_step|intros line].
    destruct (tokenize line) as [|? [|? [|? [|? [|? [|? [|? [|? [|? [|? [|]]]]]]]]]]];
      try apply steady_raise.
    apply steady_bind; [apply steady_led_update|intros ?; apply steady_ret].
  - intros ex. destruct ex; repeat steady_step.
Qed.



Lemma handle_press rest :
  handle_category_status "BTN" ("PRESS" :: rest)
  = update_properties [("state", VState Down)].
Proof. reflexivity. Qed.

Lemma update_state_unfold (st : State) (s : Env) :
  update_properties [("state", VState st)] s
  = if decide (props (self s) !! "state" = Some (VState st))
    then (mkEnv (mkButton (vid (self s)) (command_client (self s)) (props (self s)))
                (world s), Ok [])
    else (mkEnv (mkButton (vid (self s)) (command_client (self s))
                   (<["state" := VState st]> (props (self s)))) (world s),
          Ok ["state"]).
Proof.
  unfold update_properties. rewrite update_properties_single.
  by case_decide.
Qed.

(** The status sets the state whatever was cached. *)
Lemma press_status_sets_down (s : Env) rest :
  ∃ s1 changed,
    handle_category_status "BTN" ("PRESS" :: rest) s = (s1, Ok changed)
    ∧ props (self s1) !! "state" = Some (VState Down)
    ∧ world s1 = world s.
Proof.
  rewrite handle_press, update_state_unfold. case_decide as Hst.
  - by eexists _, _.
  - eexists _, _. split_and!; [done| |done]. simpl. by rewrite lookup_insert_eq.
Qed.
End ButtonFacts.

(** C3 (as the code has it).  For every button, handling a pushed
    [S:BTN <id> PRESS] sets the cached [state] to [Down] and touches no
    other property; it reports exactly the one name [state] when the
    cached state was not already [Down], and no name when it was; handling
    a second [PRESS] right after reports no name and leaves the object as
    it is. *)
Theorem press_status_reports_state_once (s : ButtonInterface.Env)
    (rest rest' : list string) :
  ∃ s1,
    ButtonInterface.handle_category_status "BTN" ("PRESS" :: rest) s
      = (s1, Ok (if decide (ButtonInterface.props (ButtonInterface.self s) !! "state"
                            = Some (ButtonInterface.VState ButtonInterface.Down))
                 then [] else ["state"]))
    ∧ ButtonInterface.props (ButtonInterface.self s1) !! "state"
      = Some (ButtonInterface.VState ButtonInterface.Down)
    ∧ ButtonInterface.is_down (ButtonInterface.self s1) = true
    ∧ (∀ k, k ≠ "state" →
         ButtonInterface.props (ButtonInterface.self s1) !! k
         = ButtonInterface.props (ButtonInterface.self s) !! k)
    ∧ ButtonInterface.world s1 = ButtonInterface.world s
    ∧ ButtonInterface.handle_category_status "BTN" ("PRESS" :: rest') s1
      = (s1, Ok []).
Proof.
  rewrite handle_press, update_state_unfold.
  destruct (decide (ButtonInterface.props (ButtonInterface.self s) !! "state"
                    = Some (ButtonInterface.VState ButtonInterface.Down)))
    as [Hst|Hst]; eexists; (split; [reflexivity|]); cbn [ButtonInterface.self
      ButtonInterface.world ButtonInterface.props].
  - split_and!; [done| |done|done|].
    + unfold ButtonInterface.is_down. by rewrite bool_decide_eq_true.
    + rewrite handle_press, update_state_unfold. simpl. by rewrite decide_True.
  - assert (Hdown : (<["state" := ButtonInterface.VState ButtonInterface.Down]>
                       (ButtonInterface.props (ButtonInterface.self s))) !! "state"
                    = Some (ButtonInterface.VState ButtonInterface.Down))
      by apply lookup_insert_eq.
    split_and!; [done| | |done|].
    + unfold ButtonInterface.is_down. by rewrite bool_decide_eq_true.
    + intros k Hk. by rewrite lookup_insert_ne.
    + rewrite handle_press, update_state_unfold. simpl. by rewrite decide_True.
Qed.

Lemma press_status_reports_state_once_witness :
  ∃ s1,
    ButtonInterface.handle_category_status "BTN" ["PRESS"]
      (ButtonInterface.mkEnv Examples.button447 Examples.world_released)
      = (s1, Ok ["state"])
    ∧ ButtonInterface.handle_category_status "BTN" ["PRESS"] s1 = (s1, Ok []).
Proof.
  destruct (press_status_reports_state_once
              (ButtonInterface.mkEnv Examples.button447 Examples.world_released)
              [] []) as (s1 & H1 & _ & _ & _ & _ & H2).
  exists s1. split; [exact H1|exact H2].
Defined.

(** C3, as stated, fails: on a button whose cached state is already
    [Down], the first [PRESS] reports no name. *)
Lemma press_on_held_button_reports_nothing :
  ¬ (∀ (s : ButtonInterface.Env) (rest : list string),
       ∃ s1, ButtonInterface.handle_category_status "BTN" ("PRESS" :: rest) s
             = (s1, Ok ["state"])).
Proof.
  intros Hclaim.
  destruct (Hclaim (ButtonInterface.mkEnv Examples.held_button447
                      Examples.world_released) []) as [s1 Hs1].
  vm_compute in Hs1. discriminate Hs1.
Qed.

Section RoundTrips.
Import CommandClient ButtonInterface.

Lemma button_invoke_unfold {A} (decode : string → option A) method params (s : Env) :
  command_client (self s) = true →
  ButtonInterface.invoke decode method params s
  = (mkEnv (self s)
       (mkWorld (sent (world s) ++ [invoke_line (vid (self s)) method params])
                (tail (script (world s))) (log (world s))),
     next_reply decode (vid (self s)) method (world s)).
Proof.
  intros Hcc. unfold ButtonInterface.invoke, bind, get_self. rewrite Hcc.
  unfold lift_world. by rewrite invoke_unfold.
Qed.

Lemma button_invoke_no_client {A} (decode : string → option A) method params (s : Env) :
  command_client (self s) = false →
  ButtonInterface.invoke decode method params s = (s, Raise ValueError).
Proof.
  intros Hcc. unfold ButtonInterface.invoke, bind, get_self. by rewrite Hcc.
Qed.
End RoundTrips.

(** C4 (as the code has it).  A successful [set_state(Down)] sends one
    [INVOKE <id> Button.SetState 1] and does not touch the object;
    [get_state()] with [hw=false] then sends [INVOKE <id> Button.GetState],
    a round trip of its own, and returns what the controller's answer to
    that request decodes to (so [Down] when the controller answers
    [Down]). *)
Theorem get_state_after_set_state (s s1 : ButtonInterface.Env) :
  ButtonInterface.set_state ButtonInterface.Down false s = (s1, Ok tt) →
  ButtonInterface.self s1 = ButtonInterface.self s
  ∧ CommandClient.sent (ButtonInterface.world s1)
    = CommandClient.sent (ButtonInterface.world s)
      ++ [CommandClient.invoke_line (ButtonInterface.vid (ButtonInterface.self s))
            "Button.SetState" ["1"]]
  ∧ ∃ s2,
      ButtonInterface.get_state false s1
      = (s2, CommandClient.next_reply ButtonInterface.State_decode
               (ButtonInterface.vid (ButtonInterface.self s)) "Button.GetState"
               (ButtonInterface.world s1))
      ∧ ButtonInterface.self s2 = ButtonInterface.self s
      ∧ CommandClient.sent (ButtonInterface.world s2)
        = CommandClient.sent (ButtonInterface.world s1)
          ++ [CommandClient.invoke_line (ButtonInterface.vid (ButtonInterface.self s))
                "Button.GetState" []].
Proof.
  intros Hset. unfold ButtonInterface.set_state in Hset.
  destruct (ButtonInterface.command_client (ButtonInterface.self s)) eqn:Hcc.
  - rewrite button_invoke_unfold in Hset by done.
    injection Hset as <- Hreply. simpl. split_and!; [done..|].
    unfold ButtonInterface.get_state. rewrite button_invoke_unfold by done.
    simpl. eexists. split_and!; done.
  - rewrite button_invoke_no_client in Hset by done. discriminate.
Qed.

Lemma get_state_after_set_state_witness :
  ∃ s1 s2,
    ButtonInterface.set_state ButtonInterface.Down false
      (ButtonInterface.mkEnv Examples.button447 Examples.world_set_then_down)
    = (s1, Ok tt)
    ∧ ButtonInterface.get_state false s1 = (s2, Ok ButtonInterface.Down)
    ∧ CommandClient.sent (ButtonInterface.world s2)
      = ["INVOKE 447 Button.SetState 1"; "INVOKE 447 Button.GetState"].
Proof.
  assert (Hset : ButtonInterface.set_state ButtonInterface.Down false
            (ButtonInterface.mkEnv Examples.button447 Examples.world_set_then_down)
          = (ButtonInterface.mkEnv Examples.button447
               (CommandClient.mkWorld ["INVOKE 447 Button.SetState 1"]
                  [CommandClient.Response ["R:INVOKE 447 Down Button.GetState"]] []),
             Ok tt)) by (vm_compute; reflexivity).
  destruct (get_state_after_set_state _ _ Hset) as (_ & _ & s2 & Hget & _ & Hsent).
  eexists _, s2. split; [exact Hset|]. split.
  - rewrite Hget. vm_compute. reflexivity.
  - rewrite Hsent. vm_compute. reflexivity.
Defined.

(** The value returned is the controller's answer, not the value that was
    set. *)
Example get_state_returns_the_answer :
  (CommandClient.bind (ButtonInterface.set_state ButtonInterface.Down false)
     (λ _, ButtonInterface.get_state false)
     (ButtonInterface.mkEnv Examples.button447 Examples.world_set_then_up)).2
  = Ok ButtonInterface.Up.
Proof. vm_compute. reflexivity. Qed.

(** C4, as stated, fails: after a successful [set_state(Down)],
    [get_state()] writes a request of its own to the connection, even when
    the controller answers [Down]. *)
Lemma get_state_sends_a_request :
  ¬ (∀ s s1 : ButtonInterface.Env,
       ButtonInterface.set_state ButtonInterface.Down false s = (s1, Ok tt) →
       ∃ s2, ButtonInterface.get_state false s1 = (s2, Ok ButtonInterface.Down)
             ∧ CommandClient.sent (ButtonInterface.world s2)
               = CommandClient.sent (ButtonInterface.world s1)).
Proof.
  intros Hclaim.
  destruct (Hclaim
    (ButtonInterface.mkEnv Examples.button447 Examples.world_set_then_down)
    (ButtonInterface.mkEnv Examples.button447
       (CommandClient.mkWorld ["INVOKE 447 Button.SetState 1"]
          [CommandClient.Response ["R:INVOKE 447 Down Button.GetState"]] [])))
    as (s2 & Hget & Hsent); [vm_compute; reflexivity|].
  vm_compute in Hget. injection Hget as <-. vm_compute in Hsent. discriminate.
Qed.

Section FetchState.
Import CommandClient ButtonInterface.

(** The base class asks for [GetState] once: the answer is written
    through [update_properties], a command or conversion error is logged
    and skipped, anything else is raised. *)
Lemma Interface_fetch_state_unfold (s : Env) :
  command_client (self s) = true →
  Interface_fetch_state s
  = let b := self s in
    let w1 := mkWorld (sent (world s) ++ [invoke_line (vid b) "Button.GetState" []])
                (tail (script (world s))) (log (world s)) in
    match next_reply State_decode (vid b) "Button.GetState" (world s) with
    | Ok st =>
        if decide (props b !! "state" = Some (VState st))
        then (mkEnv (mkButton (vid b) true (props b)) w1, Ok [])
        else (mkEnv (mkButton (vid b) true (<["state" := VState st]> (props b))) w1,
              Ok ["state"])
    | Raise e =>
        if decide (e = CommandError ∨ e = ConversionError)
        then (mkEnv b (mkWorld (sent w1) (script w1)
                         (log w1 ++ ["Failed to fetch property"])), Ok [])
        else (mkEnv b w1, Raise e)
    end.
Proof.
  intros Hcc. unfold Interface_fetch_state, bind at 1, get_self. rewrite Hcc. simpl.
  unfold bind at 1, try_except, bind at 1, bind at 1.
  unfold get_state. rewrite button_invoke_unfold by done.
  destruct (next_reply _ _ _ _) as [st|e]; simpl.
  - unfold bind, ret. rewrite update_properties_single, Hcc.
    case_decide; simpl; done.
  - destruct e; simpl; try done;
      case_decide as Hex; try done; destruct Hex; done.
Qed.
(** From the defaults, the base class leaves the button as it was or
    with [state] set to [Down]. *)
Lemma Interface_fetch_state_new_button (id : Z) (w : World) (s1 : Env) changed :
  Interface_fetch_state (mkEnv (new_button id true) w) = (s1, Ok changed) →
  (self s1 = new_button id true ∧ changed = [])
  ∨ (self s1 = mkButton id true (<["state" := VState Down]> default_props)
     ∧ changed = ["state"]).
Proof.
  rewrite Interface_fetch_state_unfold by done. simpl.
  destruct (next_reply _ _ _ _) as [[|]|e].
  - rewrite decide_True by done. intros [= <- <-]. by left.
  - rewrite decide_False by done. intros [= <- <-]. by right.
  - case_decide; intros [= <- <-]. by left.
Qed.

(** The [GETLED] step of [fetch_state] on an answer line with ten tokens. *)
Lemma fetch_state_led_step (s s1 : Env) changed lines rest
    t0 t1 t2 r1 g1 b1 r2 g2 b2 blink_str :
  Interface_fetch_state s = (s1, Ok changed) →
  command_client (self s1) = true →
  script (world s1) = Response lines :: rest →
  tokenize (default "" (last lines)) = [t0; t1; t2; r1; g1; b1; r2; g2; b2; blink_str] →
  last lines ≠ None →
  fetch_state s
  = try_except
      (bind (led_update r1 g1 b1 r2 g2 b2 blink_str)
         (λ led_changed, ret (changed ++ led_changed)))
      (λ ex,
        match ex with
        | CommandError | ConversionError | ValueError =>
            bind (lift_world (warning "Failed to fetch LED state")) (λ _, ret changed)
        | _ => raise ex
        end)
      (mkEnv (self s1)
         (mkWorld (sent (world s1) ++ ["GETLED " +:+ str_of_Z (vid (self s1))])
                  rest (log (world s1)))).
Proof.
  intros Hbase Hcc Hscript Htok Hlast.
  unfold fetch_state, bind at 1. rewrite Hbase.
  unfold bind at 1, get_self. rewrite Hcc. simpl.
  unfold try_except, bind at 1, lift_world at 1.
  rewrite raw_request_unfold, Hscript. simpl.
  unfold bind at 1. destruct (last lines) as [line|]; [|done]. simpl in *.
  unfold ret at 1. rewrite Htok. done.
Qed.
End FetchState.

(** C2 (as the code has it).  For button 447 with its property slots at
    their defaults, a fetch whose [GETLED] request is answered by
    [R:GETLED 447 1 255 0 0 0 0 0 OFF] sets [led_active_color] to
    (255,0,0), [led_inactive_color] to (0,0,0) and [led_blink_rate] to
    [OFF], and returns the names the [GetState] getter changed followed by
    exactly these three names: the three alone when the getter left
    [state] at [Up], [state] and the three when it moved it to [Down]. *)
Theorem fetch_state_getled_447 (w : CommandClient.World)
    (s1 : ButtonInterface.Env) (changed lines : list string)
    (rest : list CommandClient.Reply) :
  ButtonInterface.Interface_fetch_state
    (ButtonInterface.mkEnv Examples.button447 w) = (s1, Ok changed) →
  CommandClient.script (ButtonInterface.world s1)
    = CommandClient.Response lines :: rest →
  last lines = Some Examples.getled_line →
  ∃ s2,
    ButtonInterface.fetch_state (ButtonInterface.mkEnv Examples.button447 w)
      = (s2, Ok (changed ++ Examples.led_names))
    ∧ ButtonInterface.props (ButtonInterface.self s2) !! "led_active_color"
      = Some (ButtonInterface.VColor (255, 0, 0))
    ∧ ButtonInterface.props (ButtonInterface.self s2) !! "led_inactive_color"
      = Some (ButtonInterface.VColor (0, 0, 0))
    ∧ ButtonInterface.props (ButtonInterface.self s2) !! "led_blink_rate"
      = Some (ButtonInterface.VBlink ButtonInterface.Off)
    ∧ ((changed = []
        ∧ ButtonInterface.props (ButtonInterface.self s2) !! "state"
          = Some (ButtonInterface.VState ButtonInterface.Up))
       ∨ (changed = ["state"]
          ∧ ButtonInterface.props (ButtonInterface.self s2) !! "state"
            = Some (ButtonInterface.VState ButtonInterface.Down))).
Proof.
  intros Hbase Hscript Hlast.
  destruct (Interface_fetch_state_new_button 447 w s1 changed Hbase)
    as [[Hself ->]|[Hself ->]].
  - rewrite (fetch_state_led_step _ s1 [] lines rest
               "R:GETLED" "447" "1" "255" "0" "0" "0" "0" "0" "OFF");
      [|done|by rewrite Hself|done|by rewrite Hlast|by rewrite Hlast].
    rewrite Hself. eexists. split; [vm_compute; reflexivity|].
    split_and!; [vm_compute; reflexivity..|]. left. split; [done|].
    vm_compute; reflexivity.
  - rewrite (fetch_state_led_step _ s1 ["state"] lines rest
               "R:GETLED" "447" "1" "255" "0" "0" "0" "0" "0" "OFF");
      [|done|by rewrite Hself|done|by rewrite Hlast|by rewrite Hlast].
    rewrite Hself. eexists. split; [vm_compute; reflexivity|].
    split_and!; [vm_compute; reflexivity..|]. right. split; [done|].
    vm_compute; reflexivity.
Qed.

Lemma fetch_state_getled_447_witness :
  ∃ s2,
    ButtonInterface.fetch_state
      (ButtonInterface.mkEnv Examples.button447 Examples.world_released)
    = (s2, Ok Examples.led_names)
    ∧ ButtonInterface.props (ButtonInterface.self s2) !! "led_active_color"
      = Some (ButtonInterface.VColor (255, 0, 0)).
Proof.
  destruct (fetch_state_getled_447 Examples.world_released
    (ButtonInterface.mkEnv Examples.button447
       (CommandClient.mkWorld ["INVOKE 447 Button.GetState"]
          [CommandClient.Response [Examples.getled_line]] []))
    [] [Examples.getled_line] [])
    as (s2 & Hfetch & Hactive & _); [vm_compute; reflexivity..|].
  exists s2. split; [exact Hfetch|exact Hactive].
Defined.

(** C2, as stated, fails: when the controller reports the button held
    down, the first fetch returns four names, [state] first. *)
Lemma getled_fetch_reports_state_too :
  ¬ (∀ (w : CommandClient.World) (s1 : ButtonInterface.Env)
       (changed lines : list string) (rest : list CommandClient.Reply),
       ButtonInterface.Interface_fetch_state
         (ButtonInterface.mkEnv Examples.button447 w) = (s1, Ok changed) →
       CommandClient.script (ButtonInterface.world s1)
         = CommandClient.Response lines :: rest →
       last lines = Some Examples.getled_line →
       (ButtonInterface.fetch_state
          (ButtonInterface.mkEnv Examples.button447 w)).2
       = Ok Examples.led_names).
Proof.
  intros Hclaim.
  specialize (Hclaim Examples.world_held
    (ButtonInterface.mkEnv
       (ButtonInterface.mkButton 447 true
          (<["state" := ButtonInterface.VState ButtonInterface.Down]>
             ButtonInterface.default_props))
       (CommandClient.mkWorld ["INVOKE 447 Button.GetState"]
          [CommandClient.Response [Examples.getled_line]] []))
    ["state"] [Examples.getled_line] []).
  assert (Hfour : (ButtonInterface.fetch_state
            (ButtonInterface.mkEnv Examples.button447 Examples.world_held)).2
          = Ok ("state" :: Examples.led_names)) by (vm_compute; reflexivity).
  rewrite Hfour in Hclaim.
  discriminate Hclaim; vm_compute; reflexivity.
Qed.

Section FetchFailures.
Import CommandClient ButtonInterface.


Lemma led_update_world r1 g1 b1 r2 g2 b2 blink_str (s : Env) :
  world (led_update r1 g1 b1 r2 g2 b2 blink_str s).1 = world s.
Proof.
  unfold led_update, bind, of_result.
  destruct (rgb r1 g1 b1); [|done]. destruct (rgb r2 g2 b2); [|done].
  by destruct (BlinkRate_of blink_str).
Qed.

Lemma fetch_state_unfold (s : Env) :
  fetch_state s
  = match Interface_fetch_state s with
    | (s1, Ok changed) =>
        if negb (command_client (self s1)) then (s1, Ok changed)
        else led_block (self s1) changed s1
    | (s1, Raise e) => (s1, Raise e)
    end.
Proof.
  unfold fetch_state, bind at 1.
  destruct (Interface_fetch_state s) as [s1 [changed|e]]; [|done].
  unfold bind at 1, get_self. by destruct (negb (command_client (self s1))).
Qed.




End FetchFailures.

(** ** LED commands, statuses and fetches *)

Section LedFacts.
Import CommandClient ButtonInterface.

Lemma set_led_unfold (s : Env) active inactive rate :
  set_led active inactive rate s
  = if command_client (self s) then
      let w' := mkWorld
                  (sent (world s) ++ [led_request (vid (self s)) active inactive rate])
                  (tail (script (world s))) (log (world s)) in
      match script (world s) with
      | [] => (mkEnv (self s) w', Raise TimeoutError)
      | Failure e :: _ => (mkEnv (self s) w', Raise e)
      | Response _ :: _ =>
          (mkEnv (mkButton (vid (self s)) true
                    (Interface.update_properties (props (self s))
                       (led_properties active inactive rate)).1) w',
           Ok tt)
      end
    else (s, Raise ValueError).
Proof.
  unfold set_led, bind at 1, get_self.
  destruct (command_client (self s)) eqn:Hcc; simpl; [|done].
  destruct active as [[r1 g1] b1], inactive as [[r2 g2] b2].
  unfold bind at 1, lift_world. rewrite raw_request_unfold. unfold led_request. simpl.
  destruct (script (world s)) as [|[lines|e] rest]; simpl; try done.
  unfold bind, update_properties, ret. simpl. by rewrite Hcc.
Qed.

Lemma led_names_nodup active inactive rate :
  NoDup (led_properties active inactive rate).*1.
Proof. apply (bool_decide_unpack _). vm_compute. exact I. Qed.

Lemma led_properties_lookup active inactive rate (cache : gmap string Value) k :
  (Interface.update_properties cache (led_properties active inactive rate)).1 !! k
  = if decide (k = "led_active_color") then Some (VColor active)
    else if decide (k = "led_inactive_color") then Some (VColor inactive)
    else if decide (k = "led_blink_rate") then Some (VBlink rate)
    else cache !! k.
Proof.
  rewrite (update_properties_lookup _ (led_names_nodup active inactive rate)).
  unfold led_properties. simpl.
  repeat case_decide; subst; simpl;
    rewrite ?lookup_insert_eq, ?lookup_insert_ne, ?lookup_empty by done; done.
Qed.

Lemma led_properties_again active inactive rate (cache : gmap string Value) :
  Interface.update_properties
    (Interface.update_properties cache (led_properties active inactive rate)).1
    (led_properties active inactive rate)
  = ((Interface.update_properties cache (led_properties active inactive rate)).1, []).
Proof.
  apply update_properties_fixpoint. intros k v Hin.
  rewrite led_properties_lookup. unfold led_properties in Hin.
  rewrite !elem_of_cons, elem_of_nil in Hin.
  destruct Hin as [?|[?|[?|[]]]]; simplify_eq; done.
Qed.

Lemma int_raises_ValueError (t : string) e : int t = Raise e → e = ValueError.
Proof.
  unfold int.
  assert (Hd : ∀ u sign,
            match int_digits u 0 false with
            | Some n => Ok (sign * n)
            | None => Raise ValueError
            end = Raise e → e = ValueError).
  { intros u sign. destruct (int_digits u 0 false); by intros [= <-]. }
  destruct t as [|c t]; [apply Hd|].
  destruct c as [[] [] [] [] [] [] [] []]; apply Hd.
Qed.

Lemma rgb_raises_ValueError r g b e : rgb r g b = Raise e → e = ValueError.
Proof.
  unfold rgb.
  destruct (int r) eqn:Hr; [|intros [= <-]; by eapply int_raises_ValueError].
  destruct (int g) eqn:Hg; [|intros [= <-]; by eapply int_raises_ValueError].
  destruct (int b) eqn:Hb; [done|intros [= <-]; by eapply int_raises_ValueError].
Qed.

Lemma BlinkRate_of_raises_ValueError t e : BlinkRate_of t = Raise e → e = ValueError.
Proof. unfold BlinkRate_of. repeat case_decide; by intros [= <-]. Qed.

Lemma led_update_unfold r1 g1 b1 r2 g2 b2 blink_str (s : Env) :
  led_update r1 g1 b1 r2 g2 b2 blink_str s
  = match rgb r1 g1 b1, rgb r2 g2 b2, BlinkRate_of blink_str with
    | Ok active, Ok inactive, Ok rate =>
        update_properties (led_properties active inactive rate) s
    | Raise e, _, _ => (s, Raise e)
    | Ok _, Raise e, _ => (s, Raise e)
    | Ok _, Ok _, Raise e => (s, Raise e)
    end.
Proof.
  unfold led_update, bind, of_result.
  destruct (rgb r1 g1 b1); [|done]. destruct (rgb r2 g2 b2); [|done].
  by destruct (BlinkRate_of blink_str).
Qed.

Lemma led_update_raises r1 g1 b1 r2 g2 b2 blink_str (s s' : Env) e :
  led_update r1 g1 b1 r2 g2 b2 blink_str s = (s', Raise e) →
  s' = s ∧ e = ValueError.
Proof.
  rewrite led_update_unfold.
  destruct (rgb r1 g1 b1) eqn:H1;
    [|intros [= <- <-]; split; [done|by eapply rgb_raises_ValueError]].
  destruct (rgb r2 g2 b2) eqn:H2;
    [|intros [= <- <-]; split; [done|by eapply rgb_raises_ValueError]].
  destruct (BlinkRate_of blink_str) eqn:H3;
    [|intros [= <- <-]; split; [done|by eapply BlinkRate_of_raises_ValueError]].
  unfold update_properties. done.
Qed.

Lemma handle_led_status flag r1 g1 b1 r2 g2 b2 blink_str more :
  handle_category_status "LED"
    (flag :: r1 :: g1 :: b1 :: r2 :: g2 :: b2 :: blink_str :: more)
  = led_update r1 g1 b1 r2 g2 b2 blink_str.
Proof. reflexivity. Qed.

(** The [try] block of [fetch_state], by what it reads. *)
Lemma led_block_unfold (b : Button) changed (s : Env) :
  led_block b changed s
  = let w' := mkWorld (sent (world s) ++ ["GETLED " +:+ str_of_Z (vid b)])
                (tail (script (world s))) (log (world s)) in
    match led_reply_values (head (script (world s))) with
    | Ok new =>
        (mkEnv (mkButton (vid (self s)) (command_client (self s))
                  (Interface.update_properties (props (self s)) new).1) w',
         Ok (changed ++ (Interface.update_properties (props (self s)) new).2))
    | Raise e =>
        if led_caught e
        then (mkEnv (self s)
                (mkWorld (sent w') (script w') (log w' ++ ["Failed to fetch LED state"])),
              Ok changed)
        else (mkEnv (self s) w', Raise e)
    end.
Proof.
  unfold led_block, try_except, bind at 1, lift_world at 1.
  rewrite raw_request_unfold. simpl.
  destruct (script (world s)) as [|[lines|e] rest]; simpl; [done| |by destruct e].
  unfold bind at 1. destruct (last lines) as [line|]; simpl; [|done].
  destruct (tokenize line)
    as [|t0 [|t1 [|t2 [|r1 [|g1 [|b1 [|r2 [|g2 [|b2 [|blink_str [|]]]]]]]]]]];
    try done.
  unfold bind at 1. rewrite led_update_unfold.
  destruct (rgb r1 g1 b1) as [active|e] eqn:H1; simpl;
    [|rewrite (rgb_raises_ValueError _ _ _ _ H1); done].
  destruct (rgb r2 g2 b2) as [inactive|e] eqn:H2; simpl;
    [|rewrite (rgb_raises_ValueError _ _ _ _ H2); done].
  destruct (BlinkRate_of blink_str) as [rate|e] eqn:H3; simpl;
    [|rewrite (BlinkRate_of_raises_ValueError _ _ H3); done].
  done.
Qed.
End LedFacts.



(** A failing [GetState] does not keep the LED properties from being
    fetched. *)
Example fetch_state_after_failed_getter :
  (ButtonInterface.fetch_state
     (ButtonInterface.mkEnv Examples.button447 Examples.world_state_fails)).2
  = Ok Examples.led_names.
Proof. vm_compute. reflexivity. Qed.




(** ** The snapshot loader *)

Section LoaderFacts.
Import FileLoader.
Context {Cls Obj : Type}.
Variable type_map : string → option Cls.
Variable tostring : Element → string.
Variable from_string : string → Cls → result Obj.

Local Abbreviation load_record := (load_record type_map tostring from_string).
Local Abbreviation loads := (loads type_map tostring from_string).
Local Abbreviation unrecognized := (unrecognized type_map).
Local Abbreviation unparseable := (unparseable type_map tostring from_string).

Lemma omap_length_le {A B} (f : A → option B) (l : list A) :
  (length (omap f l) ≤ length l)%nat.
Proof.
  induction l as [|x l IH]; [done|]. cbn.
  destruct (f x); simpl; lia.
Qed.

Lemma load_record_Some (r : Element) (obj : Obj) :
  load_record r = Some obj ↔ loads r obj.
Proof.
  unfold FileLoader.load_record, FileLoader.loads. split.
  - destruct (children r) as [|typed rest]; [done|].
    destruct (type_map (tag typed)) as [cls|] eqn:Hcls; [|done].
    destruct (from_string (tostring typed) cls) as [o|e] eqn:Hparse; [|done].
    intros [= ->]. by exists typed, rest, cls.
  - intros (typed & rest & cls & -> & -> & ->). done.
Qed.

Lemma load_record_None (r : Element) :
  load_record r = None ↔ children r = [] ∨ unrecognized r ∨ unparseable r.
Proof.
  unfold FileLoader.load_record, FileLoader.unrecognized, FileLoader.unparseable.
  split.
  - destruct (children r) as [|typed rest]; [by left|].
    destruct (type_map (tag typed)) as [cls|] eqn:Hcls.
    + destruct (from_string (tostring typed) cls) as [o|e] eqn:Hparse; [done|].
      intros _. right; right. by exists typed, rest, cls, e.
    + intros _. right; left. by exists typed, rest.
  - intros [->|[(typed & rest & -> & ->)|(typed & rest & cls & e & -> & -> & ->)]];
      done.
Qed.
End LoaderFacts.

(** On every parsed snapshot, [iter_objects] returns normally: it
    yields, in document order, the objects of the [<Object>] records whose
    first child has a recognised type and parses; a record that is empty,
    of an unrecognised type or unparseable is skipped, and the records
    before and after it are yielded as if it were not there. *)
Theorem iter_objects_skips_bad_records {Cls Obj : Type}
    (type_map : string → option Cls) (tostring : FileLoader.Element → string)
    (from_string : string → Cls → result Obj) (root : FileLoader.Element) :
  ∃ objs,
    FileLoader.iter_objects type_map tostring from_string (Ok root) = Ok objs
    ∧ (length objs ≤ length (FileLoader.records root))%nat
    ∧ (∀ obj, obj ∈ objs ↔
         ∃ r, r ∈ FileLoader.records root
              ∧ FileLoader.loads type_map tostring from_string r obj)
    ∧ (∀ before bad after,
         FileLoader.records root = before ++ bad :: after →
         FileLoader.children bad = []
         ∨ FileLoader.unrecognized type_map bad
         ∨ FileLoader.unparseable type_map tostring from_string bad →
         objs = omap (FileLoader.load_record type_map tostring from_string) before
                ++ omap (FileLoader.load_record type_map tostring from_string) after).
Proof.
  eexists. split; [reflexivity|]. split_and!.
  - apply omap_length_le.
  - intros obj. rewrite list_elem_of_omap.
    split; intros (r & Hr & Hl); exists r; split; try done;
      by apply load_record_Some.
  - intros before bad after -> Hbad.
    rewrite omap_app. simpl.
    apply load_record_None in Hbad. by rewrite Hbad.
Qed.

Lemma iter_objects_skips_bad_records_witness :
  FileLoader.iter_objects Examples.type_map Examples.tostring Examples.from_string
    (Ok Examples.snapshot)
  = Ok [Examples.mkSystemObject Examples.LoadCls 447;
        Examples.mkSystemObject Examples.ButtonCls 12].
Proof.
  destruct (iter_objects_skips_bad_records Examples.type_map Examples.tostring
              Examples.from_string Examples.snapshot) as (objs & Hobjs & _ & _ & Hskip).
  rewrite Hobjs. f_equal.
  rewrite (Hskip [Examples.good_load; Examples.wire_link] Examples.corrupt_button
             [Examples.empty_object; Examples.good_button]).
  - vm_compute. reflexivity.
  - vm_compute. reflexivity.
  - right; right.
    exists (FileLoader.Elem "Button" [("VID", "4x7")] "" []), [], Examples.ButtonCls,
      ValueError.
    split_and!; vm_compute; reflexivity.
Defined.

(** Whatever [ElementTree.parse] raises leaves [iter_objects]. *)
Lemma iter_objects_parse_error {Cls Obj : Type}
    (type_map : string → option Cls) (tostring : FileLoader.Element → string)
    (from_string : string → Cls → result Obj) (e : Exc) :
  FileLoader.iter_objects type_map tostring from_string (Raise e) = Raise e.
Proof. reflexivity. Qed.

(** C7 fails on a file with one record that is damaged at the XML level.
    [ElementTree.parse] reads the whole file before the loop and outside
    its [try]: when the text of one record is not well-formed, or the file
    is cut off inside a record, the parse raises; [iter_objects] raises
    the same exception and yields no object, not even those of the intact
    records that the same file yields once the record is repaired. *)
Theorem iter_objects_raises_on_damaged_file :
  (∀ (Cls Obj : Type) (type_map : string → option Cls)
     (tostring : FileLoader.Element → string)
     (from_string : string → Cls → result Obj) (e : Exc),
     FileLoader.iter_objects type_map tostring from_string (Raise e) = Raise e
     ∧ ¬ ∃ objs, FileLoader.iter_objects type_map tostring from_string (Raise e)
                 = Ok objs)
  ∧ FileLoader.iter_objects Examples.type_map Examples.tostring
      Examples.from_string Examples.damaged_snapshot
    = Raise ParseError
  ∧ FileLoader.iter_objects Examples.type_map Examples.tostring
      Examples.from_string (Ok Examples.snapshot)
    = Ok [Examples.mkSystemObject Examples.LoadCls 447;
          Examples.mkSystemObject Examples.ButtonCls 12].
Proof.
  split_and!.
  - intros Cls Obj type_map tostring from_string e.
    split; [reflexivity|]. by intros [objs Hobjs].
  - reflexivity.
  - vm_compute. reflexivity.
Qed.

(** ** Lookups of the client *)

Section LookupFacts.
Import Controller.
Context {Obj : Type}.

Lemma contains_true (c : @Controller Obj) (vid : Z) :
  Controller.contains c vid = true ↔ ∃ obj, objects c !! vid = Some obj.
Proof.
  unfold Controller.contains. rewrite bool_decide_eq_true. done.
Qed.

Lemma getitem_from_found (cs : list (@Controller Obj)) (vid : Z) :
  existsb (λ c, Controller.contains c vid) cs = true →
  ∃ before c after obj,
    cs = before ++ c :: after
    ∧ (∀ c', c' ∈ before → Controller.contains c' vid = false)
    ∧ objects c !! vid = Some obj
    ∧ Vantage.getitem_from cs vid = Ok obj.
Proof.
  induction cs as [|c cs IH]; simpl; [done|].
  destruct (Controller.contains c vid) eqn:Hc; simpl.
  - intros _. apply contains_true in Hc as [obj Hobj].
    exists [], c, cs, obj. split_and!; [done| |done|].
    + intros c' Hc'. by apply elem_of_nil in Hc'.
    + unfold Controller.getitem. by rewrite Hobj.
  - intros Hex. destruct (IH Hex) as (before & c0 & after & obj & -> & Hb & Hobj & Hget).
    exists (c :: before), c0, after, obj. split_and!; try done.
    intros c' Hc'. apply elem_of_cons in Hc' as [->|Hc']; [done|by apply Hb].
Qed.

Lemma getitem_from_missing (cs : list (@Controller Obj)) (vid : Z) :
  existsb (λ c, Controller.contains c vid) cs = false →
  Vantage.getitem_from cs vid = Raise (KeyError (KInt vid)).
Proof.
  induction cs as [|c cs IH]; simpl; [done|].
  destruct (Controller.contains c vid); simpl; [done|apply IH].
Qed.
End LookupFacts.

(** C10.  For every client and every id: [vid in client] holds exactly
    when some controller contains [vid]; then [client[vid]] returns the
    object of the first controller that contains it and [client.get(vid)]
    returns the same object; otherwise [client[vid]] raises
    [KeyError(vid)] and [client.get(vid)] returns [None] without
    raising. *)
Theorem vantage_lookups_agree {Obj : Type} (v : @Vantage.Vantage Obj) (vid : Z) :
  (Vantage.contains v vid = true ↔
     ∃ c, c ∈ Vantage._controllers v ∧ Controller.contains c vid = true)
  ∧ (Vantage.contains v vid = true →
       ∃ before c after obj,
         Vantage._controllers v = before ++ c :: after
         ∧ (∀ c', c' ∈ before → Controller.contains c' vid = false)
         ∧ Controller.objects c !! vid = Some obj
         ∧ Vantage.getitem v vid = Ok obj
         ∧ Vantage.get v vid = Ok (Some obj))
  ∧ (Vantage.contains v vid = false →
       Vantage.getitem v vid = Raise (KeyError (KInt vid))
       ∧ Vantage.get v vid = Ok None).
Proof.
  unfold Vantage.contains, Vantage.get, Vantage.getitem. split_and!.
  - rewrite existsb_exists. split; intros (c & Hin & Hc); exists c; split; try done;
      by apply list_elem_of_In.
  - intros Hex.
    destruct (getitem_from_found _ _ Hex) as (before & c & after & obj & Hcs & Hb & Hobj & Hget).
    exists before, c, after, obj. rewrite Hget. done.
  - intros Hex. by rewrite (getitem_from_missing _ _ Hex).
Qed.

Lemma vantage_lookups_agree_witness :
  Vantage.get Examples.populated_client 12
    = Ok (Some (Examples.mkSystemObject Examples.ButtonCls 12))
  ∧ Vantage.getitem Examples.populated_client 13 = Raise (KeyError (KInt 13))
  ∧ Vantage.get Examples.populated_client 13 = Ok None.
Proof.
  destruct (vantage_lookups_agree Examples.populated_client 12) as (_ & Hin & _).
  destruct (vantage_lookups_agree Examples.populated_client 13) as (_ & _ & Hout).
  destruct Hin as (before & c & after & obj & _ & _ & _ & Hitem & Hget);
    [vm_compute; reflexivity|].
  destruct Hout as [Hitem' Hget']; [vm_compute; reflexivity|].
  split_and!; [|exact Hitem'|exact Hget'].
  rewrite Hget. f_equal. f_equal.
  assert (Hobj : Vantage.getitem Examples.populated_client 12
                 = Ok (Examples.mkSystemObject Examples.ButtonCls 12))
    by (vm_compute; reflexivity).
  rewrite Hobj in Hitem. by injection Hitem.
Defined.

(** ** State monitoring *)

Section MonitoringFacts.
Import Controller.
Context {Obj : Type}.

Lemma base_monitoring_sets_status_type self_ (c : @Controller Obj) es :
  is_Some (_status_type (Controller_enable_state_monitoring self_ c es).1).
Proof.
  unfold Controller_enable_state_monitoring.
  destruct (_status_type c) eqn:Hst; [by exists s|].
  by destruct (enhanced_log es).
Qed.

(** The base class, as the spec has it: a second call changes nothing. *)
Lemma base_monitoring_idempotent self_ (c : @Controller Obj) es :
  Controller_enable_state_monitoring self_
    (Controller_enable_state_monitoring self_ c es).1
    (Controller_enable_state_monitoring self_ c es).2
  = Controller_enable_state_monitoring self_ c es.
Proof.
  destruct (base_monitoring_sets_status_type self_ c es) as [st Hst].
  unfold Controller_enable_state_monitoring at 1. rewrite Hst.
  by destruct (Controller_enable_state_monitoring self_ c es).
Qed.

Lemma enable_keeps_class self_ (c : @Controller Obj) es :
  class (enable_state_monitoring self_ c es).1 = class c.
Proof.
  assert (Hbase : class (Controller_enable_state_monitoring self_ c es).1 = class c).
  { unfold Controller_enable_state_monitoring.
    by destruct (_status_type c), (enhanced_log es). }
  unfold enable_state_monitoring, ButtonsController_enable_state_monitoring.
  destruct (class c) eqn:Hclass; try done.
  by case_decide.
Qed.

(** Every controller that inherits [enable_state_monitoring] is
    idempotent. *)
Lemma inherited_monitoring_idempotent self_ (c : @Controller Obj) es :
  class c ≠ ButtonsController →
  enable_state_monitoring self_
    (enable_state_monitoring self_ c es).1 (enable_state_monitoring self_ c es).2
  = enable_state_monitoring self_ c es.
Proof.
  intros Hclass.
  assert (Hbase : ∀ (c' : @Controller Obj) es', class c' = class c →
            enable_state_monitoring self_ c' es'
            = Controller_enable_state_monitoring self_ c' es').
  { intros c' es' Hc'. unfold enable_state_monitoring. rewrite Hc'.
    by destruct (class c). }
  rewrite (Hbase _ _ (enable_keeps_class self_ c es)).
  rewrite (Hbase c es eq_refl). apply base_monitoring_idempotent.
Qed.

(** The buttons controller is idempotent when the base class chose the
    per-category subscriptions. *)
Lemma buttons_monitoring_idempotent_category self_ (c : @Controller Obj) es :
  _status_type (Controller_enable_state_monitoring self_ c es).1 ≠ Some OBJECT →
  ButtonsController_enable_state_monitoring self_
    (ButtonsController_enable_state_monitoring self_ c es).1
    (ButtonsController_enable_state_monitoring self_ c es).2
  = ButtonsController_enable_state_monitoring self_ c es.
Proof.
  intros Hst.
  assert (Hone : ButtonsController_enable_state_monitoring self_ c es
                 = Controller_enable_state_monitoring self_ c es).
  { unfold ButtonsController_enable_state_monitoring. by rewrite decide_False. }
  rewrite Hone. unfold ButtonsController_enable_state_monitoring.
  rewrite base_monitoring_idempotent. by rewrite decide_False.
Qed.

(** With the enhanced log, every further call of the override subscribes
    to [LED] once more. *)
Lemma buttons_monitoring_adds_led self_ (c : @Controller Obj) es :
  _status_type c = Some OBJECT →
  ButtonsController_enable_state_monitoring self_ c es
  = (set_monitoring c (Some OBJECT) (_status_unsubs c ++ [next_id es]),
     mkEventStream
       (subscriptions es ++ [mkSubscription (next_id es) self_ (Status "LED")])
       (S (next_id es)) (enhanced_log es)).
Proof.
  intros Hst.
  unfold ButtonsController_enable_state_monitoring,
    Controller_enable_state_monitoring. rewrite Hst. simpl.
  rewrite decide_True by done. simpl. by rewrite Hst.
Qed.
End MonitoringFacts.

(** C8 fails for the buttons controller.  On a controller whose firmware
    has the enhanced log, the first [enable_state_monitoring] leaves two
    subscriptions, the enhanced log and [LED]; a second call without
    [disable_state_monitoring] in between leaves three, [LED] twice. *)
Theorem buttons_monitoring_twice_duplicates_led :
  let es := Controller.mkEventStream [] 0 true in
  let once := Controller.enable_state_monitoring 0 Examples.buttons es in
  let twice := Controller.enable_state_monitoring 0 once.1 once.2 in
  Controller.subscriptions once.2
    = [Controller.mkSubscription 0 0 Controller.EnhancedLog;
       Controller.mkSubscription 1 0 (Controller.Status "LED")]
  ∧ Controller.subscriptions twice.2
    = [Controller.mkSubscription 0 0 Controller.EnhancedLog;
       Controller.mkSubscription 1 0 (Controller.Status "LED");
       Controller.mkSubscription 2 0 (Controller.Status "LED")]
  ∧ Controller._status_unsubs twice.1 = [0; 1; 2]%nat
  ∧ twice ≠ once.
Proof.
  intros es once twice. split_and!; [reflexivity..|].
  intros Heq. apply (f_equal (λ r, length (Controller.subscriptions r.2))) in Heq.
  vm_compute in Heq. discriminate.
Qed.

(** ** Injection from a snapshot and live discovery *)

Section InjectionFacts.
Import FileLoader Controller.
Context {Cls Obj : Type}.
Variable obj_vid : Obj → Z.
Variable obj_type : Obj → string.
Variable fetch_object : Obj → Obj.
Variable type_map : string → option Cls.
Variable tostring : Element → string.
Variable from_string : string → Cls → result Obj.




Lemma inject_object_lookup routes (cs : list (@Controller Obj)) n obj i c :
  cs !! i = Some c →
  (Vantage.inject_object obj_vid obj_type routes (cs, n) obj).1 !! i
  = Some (if decide (routes !! obj_type obj = Some i)
          then inject obj_vid obj c else c).
Proof.
  intros Hc. unfold Vantage.inject_object.
  destruct (routes !! obj_type obj) as [j|] eqn:Hroute; cbn [fst].
  - case_decide as Hj.
    + injection Hj as ->. by rewrite list_lookup_alter_eq, Hc.
    + rewrite list_lookup_alter_ne; [done|]. congruence.
  - by case_decide.
Qed.

(** What the loop of [_inject_from_file] leaves at each position. *)
Lemma inject_fold_lookup routes (objs : list Obj) :
  ∀ (cs : list (@Controller Obj)) n i c,
    cs !! i = Some c →
    ∃ c1,
      (fold_left (Vantage.inject_object obj_vid obj_type routes) objs (cs, n)).1 !! i
        = Some c1
      ∧ vantage_types c1 = vantage_types c
      ∧ (_initialized c1 = true ↔
           _initialized c = true
           ∨ ∃ obj, obj ∈ objs ∧ routes !! obj_type obj = Some i)
      ∧ (∀ vid, is_Some (objects c !! vid) → is_Some (objects c1 !! vid))
      ∧ (∀ obj, obj ∈ objs → routes !! obj_type obj = Some i →
           is_Some (objects c1 !! obj_vid obj)).
Proof.
  induction objs as [|obj objs IH]; intros cs n i c Hc; simpl.
  - exists c. split_and!; try done.
    + split; [by left|]. intros [?|(obj & Hin & _)]; [done|].
      by apply elem_of_nil in Hin.
    + intros obj Hin. by apply elem_of_nil in Hin.
  - pose proof (inject_object_lookup routes cs n obj i c Hc) as Hstep.
    destruct (Vantage.inject_object obj_vid obj_type routes (cs, n) obj)
      as [cs' n'] eqn:Hone. simpl in Hstep.
    destruct (IH cs' n' i _ Hstep) as (c1 & Hl & Hty & Hinit & Hmono & Hobjs).
    exists c1. split; [done|].
    destruct (decide (routes !! obj_type obj = Some i)) as [Hroute|Hroute].
    + simpl in *. split_and!.
      * done.
      * split.
        -- intros _. right. exists obj. split; [by left|done].
        -- intros _. apply Hinit. by left.
      * intros vid Hvid. apply Hmono. unfold add_object.
        destruct (decide (obj_vid obj = vid)) as [->|Hne].
        -- by rewrite lookup_insert_eq.
        -- by rewrite lookup_insert_ne.
      * intros obj' Hin Hr. apply elem_of_cons in Hin as [->|Hin].
        -- apply Hmono. unfold add_object. by rewrite lookup_insert_eq.
        -- by apply Hobjs.
    + split_and!.
      * done.
      * rewrite Hinit. split.
        -- intros [?|(obj' & Hin & Hr)]; [by left|].
           right. exists obj'. split; [by right|done].
        -- intros [?|(obj' & Hin & Hr)]; [by left|].
           apply elem_of_cons in Hin as [->|Hin]; [done|].
           right. by exists obj'.
      * done.
      * intros obj' Hin Hr. apply elem_of_cons in Hin as [->|Hin]; [done|].
        by apply Hobjs.
Qed.
End InjectionFacts.



(** * Part III: further properties of the code *)

(** ** Decimal text of integers *)

Section Decimal.
Import CommandClient ButtonInterface.

Lemma int_digits_after_digit (d : Decimal.uint) :
  ∀ acc, int_digits (NilEmpty.string_of_uint d) acc true = Some (uint_value d acc).
Proof.
  induction d as [|d IH|d IH|d IH|d IH|d IH|d IH|d IH|d IH|d IH|d IH];
    intros acc; simpl; [done|..]; rewrite IH; f_equal; f_equal; lia.
Qed.

Lemma int_digits_uint (d : Decimal.uint) :
  d ≠ Decimal.Nil →
  ∀ acc after,
    int_digits (NilEmpty.string_of_uint d) acc after = Some (uint_value d acc).
Proof.
  intros Hnil acc after.
  destruct d; [done|..]; simpl; rewrite int_digits_after_digit;
    f_equal; f_equal; lia.
Qed.

Lemma of_uint_acc_value (d : Decimal.uint) :
  ∀ acc, Z.pos (Pos.of_uint_acc d acc) = uint_value d (Z.pos acc).
Proof.
  induction d as [|d IH|d IH|d IH|d IH|d IH|d IH|d IH|d IH|d IH|d IH];
    intros acc; simpl; [done|..]; rewrite IH; f_equal; lia.
Qed.

Lemma of_uint_value (d : Decimal.uint) : Z.of_uint d = uint_value d 0.
Proof.
  unfold Z.of_uint.
  induction d as [|d IH|d IH|d IH|d IH|d IH|d IH|d IH|d IH|d IH|d IH];
    simpl; [done|exact IH|..]; rewrite of_uint_acc_value; f_equal.
Qed.

Lemma int_of_uint_text (d : Decimal.uint) :
  d ≠ Decimal.Nil →
  int (NilEmpty.string_of_uint d) = Ok (Z.of_uint d).
Proof.
  intros Hd. rewrite of_uint_value.
  assert (Hdigits := int_digits_uint d Hd 0 false).
  unfold int.
  destruct d; [done|..]; simpl in *; rewrite Hdigits; f_equal; lia.
Qed.

Lemma nilzero_text (d : Decimal.uint) :
  d ≠ Decimal.Nil → NilZero.string_of_uint d = NilEmpty.string_of_uint d.
Proof. by destruct d. Qed.

(** Formatting an integer and reading it back gives the integer. *)
Lemma int_str_of_Z (z : Z) : int (str_of_Z z) = Ok z.
Proof.
  unfold str_of_Z.
  rewrite <- (DecimalZ.of_to z) at 2.
  destruct z as [|p|p]; simpl.
  - reflexivity.
  - pose proof (DecimalPos.Unsigned.to_uint_nonnil p) as Hnil.
    rewrite nilzero_text by done. by apply int_of_uint_text.
  - pose proof (DecimalPos.Unsigned.to_uint_nonnil p) as Hnil.
    rewrite nilzero_text by done.
    change (int (String "-" (NilEmpty.string_of_uint (Pos.to_uint p))))
      with (match int_digits (NilEmpty.string_of_uint (Pos.to_uint p)) 0 false with
            | Some n => Ok (-1 * n)
            | None => Raise ValueError
            end).
    rewrite (int_digits_uint _ Hnil), <- of_uint_value. f_equal; lia.
Qed.

Lemma BlinkRate_of_value (rate : BlinkRate) :
  BlinkRate_of (BlinkRate_value rate) = Ok rate.
Proof. by destruct rate. Qed.

Lemma rgb_str_of_Z (r g b : Z) :
  rgb (str_of_Z r) (str_of_Z g) (str_of_Z b) = Ok (r, g, b).
Proof. unfold rgb. by rewrite !int_str_of_Z. Qed.
End Decimal.

(** X1.  When [set_led] raises, the object is exactly as before the call:
    without a command client it raises [ValueError] and nothing is sent;
    with one, the [LED] line was sent and the exception is the one of the
    request. *)
Theorem set_led_failure_keeps_cache (s s' : ButtonInterface.Env)
    (active inactive : Z * Z * Z) (rate : ButtonInterface.BlinkRate) (e : Exc) :
  ButtonInterface.set_led active inactive rate s = (s', Raise e) →
  ButtonInterface.self s' = ButtonInterface.self s
  ∧ (ButtonInterface.command_client (ButtonInterface.self s) = false →
       s' = s ∧ e = ValueError)
  ∧ (ButtonInterface.command_client (ButtonInterface.self s) = true →
       CommandClient.sent (ButtonInterface.world s')
       = CommandClient.sent (ButtonInterface.world s)
         ++ [ButtonInterface.led_request
               (ButtonInterface.vid (ButtonInterface.self s)) active inactive rate]
       ∧ (e = TimeoutError ∧ CommandClient.script (ButtonInterface.world s) = []
          ∨ ∃ rest, CommandClient.script (ButtonInterface.world s)
                    = CommandClient.Failure e :: rest)).
Proof.
  rewrite set_led_unfold.
  destruct (ButtonInterface.command_client (ButtonInterface.self s)) eqn:Hcc.
  - destruct (CommandClient.script (ButtonInterface.world s)) as [|[lines|e'] rest];
      simpl; intros [= <- <-]; try done; split_and!; try done.
    + intros _. split; [done|]. by left.
    + intros _. split; [done|]. right. by exists rest.
  - intros [= <- <-]. split_and!; done.
Qed.

Lemma set_led_failure_keeps_cache_witness :
  ButtonInterface.self
    (ButtonInterface.set_led (255, 0, 0) (0, 0, 0) ButtonInterface.Fast
       (ButtonInterface.mkEnv Examples.button447 Examples.world_refuses)).1
  = Examples.button447.
Proof.
  eapply (set_led_failure_keeps_cache
            (ButtonInterface.mkEnv Examples.button447 Examples.world_refuses)
            _ (255, 0, 0) (0, 0, 0) ButtonInterface.Fast CommandError).
  vm_compute. reflexivity.
Defined.

(** X2.  When the controller answers the [LED] request, [set_led] sends
    exactly [LED <vid> <R1> <G1> <B1> <R2> <G2> <B2> <BlinkRate>], and
    afterwards the three LED properties hold the values passed, whatever
    they held before; every other property, the id and the client are
    untouched. *)
Theorem set_led_writes_cache (s : ButtonInterface.Env)
    (active inactive : Z * Z * Z) (rate : ButtonInterface.BlinkRate)
    (lines : list string) (rest : list CommandClient.Reply) :
  ButtonInterface.command_client (ButtonInterface.self s) = true →
  CommandClient.script (ButtonInterface.world s) = CommandClient.Response lines :: rest →
  ∃ s1,
    ButtonInterface.set_led active inactive rate s = (s1, Ok tt)
    ∧ CommandClient.sent (ButtonInterface.world s1)
      = CommandClient.sent (ButtonInterface.world s)
        ++ [ButtonInterface.led_request
              (ButtonInterface.vid (ButtonInterface.self s)) active inactive rate]
    ∧ CommandClient.script (ButtonInterface.world s1) = rest
    ∧ ButtonInterface.vid (ButtonInterface.self s1)
      = ButtonInterface.vid (ButtonInterface.self s)
    ∧ ButtonInterface.props (ButtonInterface.self s1) !! "led_active_color"
      = Some (ButtonInterface.VColor active)
    ∧ ButtonInterface.props (ButtonInterface.self s1) !! "led_inactive_color"
      = Some (ButtonInterface.VColor inactive)
    ∧ ButtonInterface.props (ButtonInterface.self s1) !! "led_blink_rate"
      = Some (ButtonInterface.VBlink rate)
    ∧ ∀ k, k ∉ Examples.led_names →
        ButtonInterface.props (ButtonInterface.self s1) !! k
        = ButtonInterface.props (ButtonInterface.self s) !! k.
Proof.
  intros Hcc Hscript. rewrite set_led_unfold, Hcc, Hscript. simpl.
  eexists. split; [done|]. simpl. split_and!; try done.
  - by rewrite led_properties_lookup.
  - by rewrite led_properties_lookup.
  - by rewrite led_properties_lookup.
  - intros k Hk. rewrite led_properties_lookup.
    unfold Examples.led_names in Hk.
    rewrite !not_elem_of_cons in Hk. destruct Hk as (? & ? & ? & _).
    by rewrite !decide_False.
Qed.

Lemma set_led_writes_cache_witness :
  ∃ s1,
    ButtonInterface.set_led (1, 2, 3) (4, 5, 6) ButtonInterface.Slow
      (ButtonInterface.mkEnv Examples.button447 Examples.world_ack) = (s1, Ok tt)
    ∧ CommandClient.sent (ButtonInterface.world s1) = ["LED 447 1 2 3 4 5 6 SLOW"]
    ∧ ButtonInterface.props (ButtonInterface.self s1) !! "led_blink_rate"
      = Some (ButtonInterface.VBlink ButtonInterface.Slow).
Proof.
  destruct (set_led_writes_cache
              (ButtonInterface.mkEnv Examples.button447 Examples.world_ack)
              (1, 2, 3) (4, 5, 6) ButtonInterface.Slow ["R:LED 447"] [])
    as (s1 & Hset & Hsent & _ & _ & _ & _ & Hrate & _); [reflexivity..|].
  exists s1. split_and!; [exact Hset| |exact Hrate].
  rewrite Hsent. vm_compute. reflexivity.
Defined.

(** X3.  Round trip between the command and the pushed status: after a
    successful [set_led], an [S:LED] status that reports the same colors
    and blink rate (as the command formats them) changes nothing and
    reports no name, whatever the active flag and any further argument. *)
Theorem led_status_echo_reports_nothing (s s1 : ButtonInterface.Env)
    (active inactive : Z * Z * Z) (rate : ButtonInterface.BlinkRate)
    (flag : string) (more : list string) :
  ButtonInterface.set_led active inactive rate s = (s1, Ok tt) →
  ButtonInterface.handle_category_status "LED"
    (ButtonInterface.led_status_args flag active inactive rate ++ more) s1
  = (s1, Ok []).
Proof.
  rewrite set_led_unfold.
  destruct (ButtonInterface.command_client (ButtonInterface.self s)); [|done].
  destruct (CommandClient.script (ButtonInterface.world s)) as [|[lines|e] rest];
    [done| |done].
  simpl. intros [= <-].
  unfold ButtonInterface.led_status_args. simpl. rewrite handle_led_status.
  rewrite led_update_unfold, !rgb_str_of_Z, BlinkRate_of_value.
  destruct active as [[r1 g1] b1], inactive as [[r2 g2] b2]. simpl.
  unfold ButtonInterface.update_properties. simpl.
  by rewrite led_properties_again.
Qed.

Lemma led_status_echo_reports_nothing_witness :
  ∃ s1,
    ButtonInterface.set_led (255, 0, 0) (0, 0, 64) ButtonInterface.Medium
      (ButtonInterface.mkEnv Examples.button447 Examples.world_ack) = (s1, Ok tt)
    ∧ ButtonInterface.handle_category_status "LED"
        ["1"; "255"; "0"; "0"; "0"; "0"; "64"; "MEDIUM"] s1 = (s1, Ok []).
Proof.
  eexists. split; [vm_compute; reflexivity|].
  apply (led_status_echo_reports_nothing
           (ButtonInterface.mkEnv Examples.button447 Examples.world_ack) _
           (255, 0, 0) (0, 0, 64) ButtonInterface.Medium "1" []).
  vm_compute. reflexivity.
Defined.

Section StatusFacts.
Import CommandClient ButtonInterface.

Lemma update_properties_changed_keys {V : Type} `{EqDecision V}
    (new : list (string * V)) (cache : gmap string V) k :
  k ∈ (Interface.update_properties cache new).2 → k ∈ new.*1.
Proof.
  revert cache. induction new as [|[k0 v0] new IH]; intros cache.
  - rewrite update_properties_nil. simpl. by intros ?%elem_of_nil.
  - destruct (decide (cache !! k0 = Some v0)).
    + rewrite update_properties_cons_same by done. intros Hk. right. by eapply IH.
    + rewrite update_properties_cons_diff by done. simpl.
      intros [->|Hk]%elem_of_cons; [by left|]. right. by eapply IH.
Qed.

Lemma handle_btn_status arg0 rest :
  handle_category_status "BTN" (arg0 :: rest)
  = bind (of_result (btn_map arg0))
      (λ state, update_properties [("state", VState state)]).
Proof. reflexivity. Qed.

Lemma handle_led_short args :
  (length args < 8)%nat → handle_category_status "LED" args = raise ValueError.
Proof.
  intros Hlen.
  do 8 (destruct args as [|? args]; [reflexivity|]). simpl in Hlen. lia.
Qed.
End StatusFacts.

(** X4.  A pushed [S:LED] status never touches the connection, and it is
    all or nothing: with fewer than eight arguments, a color that is not
    an integer or an unknown blink rate it raises [ValueError] and the
    object is exactly as before; otherwise it only writes LED properties
    and reports only their names. *)
Theorem led_status_all_or_nothing (args : list string)
    (s s' : ButtonInterface.Env) (r : result (list string)) :
  ButtonInterface.handle_category_status "LED" args s = (s', r) →
  ButtonInterface.world s' = ButtonInterface.world s
  ∧ ((length args < 8)%nat → r = Raise ValueError)
  ∧ match r with
    | Raise e => s' = s ∧ e = ValueError
    | Ok changed =>
        (8 ≤ length args)%nat
        ∧ (∀ k, k ∈ changed → k ∈ Examples.led_names)
        ∧ (∀ k, k ∉ Examples.led_names →
             ButtonInterface.props (ButtonInterface.self s') !! k
             = ButtonInterface.props (ButtonInterface.self s) !! k)
    end.
Proof.
  destruct (decide (length args < 8)%nat) as [Hshort|Hlong].
  - rewrite handle_led_short by done. intros [= <- <-]. done.
  - assert (∃ flag r1 g1 b1 r2 g2 b2 blink_str more,
              args = flag :: r1 :: g1 :: b1 :: r2 :: g2 :: b2 :: blink_str :: more)
      as (flag & r1 & g1 & b1 & r2 & g2 & b2 & blink_str & more & ->).
    { do 8 (destruct args as [|? args]; [simpl in Hlong; lia|]).
      by eexists _, _, _, _, _, _, _, _, _. }
    rewrite handle_led_status. intros Hrun. split_and!.
    + by rewrite <- (led_update_world r1 g1 b1 r2 g2 b2 blink_str s), Hrun.
    + intros Hlen. simpl in Hlen. lia.
    + destruct r as [changed|e]; [|by eapply led_update_raises].
      rewrite led_update_unfold in Hrun.
      destruct (ButtonInterface.rgb r1 g1 b1) as [active|]; [|done].
      destruct (ButtonInterface.rgb r2 g2 b2) as [inactive|]; [|done].
      destruct (ButtonInterface.BlinkRate_of blink_str) as [rate|]; [|done].
      unfold ButtonInterface.update_properties in Hrun.
      injection Hrun as <- <-. split_and!.
      * simpl. lia.
      * intros k Hk. by apply update_properties_changed_keys in Hk.
      * intros k Hk. simpl. rewrite led_properties_lookup.
        unfold Examples.led_names in Hk.
        rewrite !not_elem_of_cons in Hk. destruct Hk as (? & ? & ? & _).
        by rewrite !decide_False.
Qed.

Lemma led_status_all_or_nothing_witness :
  ButtonInterface.handle_category_status "LED"
    ["1"; "255"; "0"; "zero"; "0"; "0"; "0"; "OFF"]
    (ButtonInterface.mkEnv Examples.button447 Examples.world_ack)
  = (ButtonInterface.mkEnv Examples.button447 Examples.world_ack, Raise ValueError).
Proof.
  pose proof (led_status_all_or_nothing
    ["1"; "255"; "0"; "zero"; "0"; "0"; "0"; "OFF"]
    (ButtonInterface.mkEnv Examples.button447 Examples.world_ack) _ _
    (surjective_pairing _)) as (_ & _ & Hr).
  assert (Hraise : (ButtonInterface.handle_category_status "LED"
            ["1"; "255"; "0"; "zero"; "0"; "0"; "0"; "OFF"]
            (ButtonInterface.mkEnv Examples.button447 Examples.world_ack)).2
          = Raise ValueError) by (vm_compute; reflexivity).
  rewrite Hraise in Hr. destruct Hr as [Hs _].
  rewrite (surjective_pairing (ButtonInterface.handle_category_status _ _ _)).
  by rewrite Hs, Hraise.
Defined.

(** X5.  A pushed [S:BTN] status only looks at its first argument:
    [PRESS] sets [state] to [Down] and [RELEASE] to [Up], and [state] is
    reported exactly when it was cached differently; with no argument it
    raises [IndexError], with any other first argument [KeyError] of that
    argument, and then the object is exactly as before.  The connection is
    never touched. *)
Theorem btn_status_outcomes (args : list string)
    (s s' : ButtonInterface.Env) (r : result (list string)) :
  ButtonInterface.handle_category_status "BTN" args s = (s', r) →
  ButtonInterface.world s' = ButtonInterface.world s
  ∧ match r with
    | Raise e =>
        s' = s
        ∧ (args = [] ∧ e = IndexError
           ∨ ∃ arg0 rest, args = arg0 :: rest ∧ arg0 ≠ "PRESS" ∧ arg0 ≠ "RELEASE"
                          ∧ e = KeyError (KStr arg0))
    | Ok changed =>
        ∃ arg0 rest state,
          args = arg0 :: rest
          ∧ (arg0 = "PRESS" ∧ state = ButtonInterface.Down
             ∨ arg0 = "RELEASE" ∧ state = ButtonInterface.Up)
          ∧ ButtonInterface.props (ButtonInterface.self s') !! "state"
            = Some (ButtonInterface.VState state)
          ∧ (changed = [] ∨ changed = ["state"])
          ∧ (changed = [] ↔
               ButtonInterface.props (ButtonInterface.self s) !! "state"
               = Some (ButtonInterface.VState state))
    end.
Proof.
  destruct args as [|arg0 rest].
  - intros [= <- <-]. split; [done|]. split; [done|]. by left.
  - rewrite handle_btn_status. unfold CommandClient.bind, CommandClient.of_result.
    unfold ButtonInterface.btn_map.
    destruct (decide (arg0 = "PRESS")) as [->|Hpress];
      [|destruct (decide (arg0 = "RELEASE")) as [->|Hrelease]].
    + rewrite update_state_unfold. case_decide as Hst; intros [= <- <-]; simpl;
        (split; [done|]); exists "PRESS", rest, ButtonInterface.Down;
        rewrite ?lookup_insert_eq; naive_solver.
    + rewrite update_state_unfold. case_decide as Hst; intros [= <- <-]; simpl;
        (split; [done|]); exists "RELEASE", rest, ButtonInterface.Up;
        rewrite ?lookup_insert_eq; naive_solver.
    + intros [= <- <-]. split; [done|]. split; [done|].
      right. by exists arg0, rest.
Qed.

Lemma btn_status_outcomes_witness :
  ButtonInterface.handle_category_status "BTN" ["HOLD"]
    (ButtonInterface.mkEnv Examples.button447 Examples.world_ack)
  = (ButtonInterface.mkEnv Examples.button447 Examples.world_ack,
     Raise (KeyError (KStr "HOLD"))).
Proof.
  pose proof (btn_status_outcomes ["HOLD"]
    (ButtonInterface.mkEnv Examples.button447 Examples.world_ack) _ _
    (surjective_pairing _)) as (_ & Hr).
  assert (Hraise : (ButtonInterface.handle_category_status "BTN" ["HOLD"]
            (ButtonInterface.mkEnv Examples.button447 Examples.world_ack)).2
          = Raise (KeyError (KStr "HOLD"))) by (vm_compute; reflexivity).
  rewrite Hraise in Hr. destruct Hr as [Hs _].
  rewrite (surjective_pairing (ButtonInterface.handle_category_status _ _ _)).
  by rewrite Hs, Hraise.
Defined.

Section FetchAgain.
Import CommandClient ButtonInterface.

Lemma next_reply_head {A} (decode : string → option A) id method (w w' : World) :
  head (script w') = head (script w) →
  next_reply decode id method w' = next_reply decode id method w.
Proof.
  unfold next_reply.
  destruct (script w) as [|[lines|e] rest], (script w') as [|[lines'|e'] rest'];
    simpl; intros Hhead; by simplify_eq.
Qed.

Lemma next_reply_answer {A} (decode : string → option A) id method (w : World) :
  next_reply decode id method (mkWorld [] (option_list (head (script w))) [])
  = next_reply decode id method w.
Proof. unfold next_reply. by destruct (script w) as [|[lines|e] rest]. Qed.

Lemma led_reply_values_Ok answer new :
  led_reply_values answer = Ok new →
  ∃ active inactive rate, new = led_properties active inactive rate.
Proof.
  unfold led_reply_values.
  destruct answer as [[response|e]|]; [|done..].
  destruct (last response) as [line|]; [|done].
  destruct (tokenize line)
    as [|t0 [|t1 [|t2 [|r1 [|g1 [|b1 [|r2 [|g2 [|b2 [|blink_str [|]]]]]]]]]]];
    try done.
  destruct (rgb r1 g1 b1) as [active|]; [|done].
  destruct (rgb r2 g2 b2) as [inactive|]; [|done].
  destruct (BlinkRate_of blink_str) as [rate|]; [|done].
  intros [= <-]. by exists active, inactive, rate.
Qed.

Lemma fetch_state_settled (b : Button) (w : World) :
  command_client b = true →
  settled b (head (script w)) (head (tail (script w))) →
  ∃ w', fetch_state (mkEnv b w) = (mkEnv b w', Ok []).
Proof.
  destruct b as [id cc cache]. simpl. intros -> [Hstate Hled].
  rewrite next_reply_answer in Hstate.
  rewrite fetch_state_unfold, Interface_fetch_state_unfold by done. simpl in *.
  destruct (next_reply _ _ _ w) as [st|e].
  - rewrite decide_True by done. simpl. rewrite led_block_unfold. simpl.
    destruct (led_reply_values _) as [new|e'].
    + rewrite Hled. simpl. by eexists.
    + rewrite Hled. by eexists.
  - rewrite decide_True by done. simpl. rewrite led_block_unfold. simpl.
    destruct (led_reply_values _) as [new|e'].
    + rewrite Hled. simpl. by eexists.
    + rewrite Hled. by eexists.
Qed.

Lemma fetch_state_settles (s s1 : Env) changed :
  command_client (self s) = true →
  fetch_state s = (s1, Ok changed) →
  command_client (self s1) = true
  ∧ settled (self s1) (head (script (world s))) (head (tail (script (world s)))).
Proof.
  destruct s as [[id cc cache] w]. simpl. intros -> Hfetch.
  assert (Hid : vid (self s1) = id).
  { pose proof (steady_fetch_state (mkEnv (mkButton id true cache) w)) as (Hv & _).
    by rewrite Hfetch in Hv. }
  revert Hfetch.
  rewrite fetch_state_unfold, Interface_fetch_state_unfold by done. simpl.
  unfold settled. rewrite next_reply_answer, Hid.
  destruct (next_reply _ _ _ w) as [st|e].
  -     assert (Hcases : ∀ (cache' : gmap string Value) ch,
              cache' !! "state" = Some (VState st) →
              led_block (mkButton id true cache') ch
                (mkEnv (mkButton id true cache')
                   (mkWorld (sent w ++ [invoke_line id "Button.GetState" []])
                      (tail (script w)) (log w)))
              = (s1, Ok changed) →
              command_client (self s1) = true
              ∧ props (self s1) !! "state" = Some (VState st)
              ∧ match led_reply_values (head (tail (script w))) with
                | Ok new =>
                    Interface.update_properties (props (self s1)) new
                    = (props (self s1), [])
                | Raise e => led_caught e = true
                end).
    { intros cache' ch Hst. rewrite led_block_unfold. simpl.
      destruct (led_reply_values _) as [new|e] eqn:Hvalues.
      - intros [= <- _]. simpl.
        destruct (led_reply_values_Ok _ _ Hvalues) as (a & i & r & ->).
        split_and!; [done| |apply led_properties_again].
        by rewrite led_properties_lookup.
      - destruct (led_caught e); [|done]. intros [= <- _]. done. }
    case_decide as Hst; simpl; intros Hrun.
    + destruct (Hcases _ _ Hst Hrun) as (? & ? & ?). done.
    + destruct (Hcases _ _ (lookup_insert_eq _ _ _) Hrun) as (? & ? & ?). done.
  - case_decide as He; [|done]. simpl. rewrite led_block_unfold. simpl.
    destruct (led_reply_values _) as [new|e'] eqn:Hvalues.
    + intros [= <- _]. simpl.
      destruct (led_reply_values_Ok _ _ Hvalues) as (a & i & r & ->).
      split_and!; [done..|apply led_properties_again].
    + destruct (led_caught e') eqn:Hcaught; [|done]. intros [= <- _]. done.
Qed.
End FetchAgain.

(** X6.  A second [fetch_state] that gets the same two answers as a first
    one that returned reports no name and leaves the object as the first
    fetch left it. *)
Theorem fetch_state_again_reports_nothing (s s1 : ButtonInterface.Env)
    (changed : list string) (w' : CommandClient.World) :
  ButtonInterface.command_client (ButtonInterface.self s) = true →
  ButtonInterface.fetch_state s = (s1, Ok changed) →
  head (CommandClient.script w') = head (CommandClient.script (ButtonInterface.world s)) →
  head (tail (CommandClient.script w'))
    = head (tail (CommandClient.script (ButtonInterface.world s))) →
  ∃ w'',
    ButtonInterface.fetch_state (ButtonInterface.mkEnv (ButtonInterface.self s1) w')
    = (ButtonInterface.mkEnv (ButtonInterface.self s1) w'', Ok []).
Proof.
  intros Hcc Hfetch Hfirst Hsecond.
  destruct (fetch_state_settles s s1 changed Hcc Hfetch) as [Hcc1 Hsettled].
  apply fetch_state_settled; [done|]. by rewrite Hfirst, Hsecond.
Qed.

Lemma fetch_state_again_reports_nothing_witness :
  ∃ s1 w'',
    ButtonInterface.fetch_state
      (ButtonInterface.mkEnv Examples.button447 Examples.world_held)
    = (s1, Ok ("state" :: Examples.led_names))
    ∧ ButtonInterface.fetch_state
        (ButtonInterface.mkEnv (ButtonInterface.self s1) Examples.world_held)
      = (ButtonInterface.mkEnv (ButtonInterface.self s1) w'', Ok []).
Proof.
  destruct (ButtonInterface.fetch_state
              (ButtonInterface.mkEnv Examples.button447 Examples.world_held))
    as [s1 r] eqn:Hfetch.
  assert (Hr : r = Ok ("state" :: Examples.led_names)).
  { apply (f_equal snd) in Hfetch. simpl in Hfetch. rewrite <- Hfetch.
    vm_compute. reflexivity. }
  subst r.
  destruct (fetch_state_again_reports_nothing
              (ButtonInterface.mkEnv Examples.button447 Examples.world_held)
              s1 _ Examples.world_held eq_refl Hfetch eq_refl eq_refl)
    as [w'' Hagain].
  by exists s1, w''.
Defined.

(** X7.  [press_and_release] sends [SetState 1] and, only when that
    request succeeds, [SetState 0]; when the press fails its exception is
    the one raised and no release is sent.  The object is not touched. *)
Theorem press_and_release_requests (s : ButtonInterface.Env) :
  ButtonInterface.command_client (ButtonInterface.self s) = true →
  let id := ButtonInterface.vid (ButtonInterface.self s) in
  let press_line := CommandClient.invoke_line id "Button.SetState" ["1"] in
  let release_line := CommandClient.invoke_line id "Button.SetState" ["0"] in
  let pressed :=
    CommandClient.mkWorld
      (CommandClient.sent (ButtonInterface.world s) ++ [press_line])
      (tail (CommandClient.script (ButtonInterface.world s)))
      (CommandClient.log (ButtonInterface.world s)) in
  let r := ButtonInterface.press_and_release s in
  ButtonInterface.self r.1 = ButtonInterface.self s
  ∧ match CommandClient.next_reply (λ _, Some tt) id "Button.SetState"
            (ButtonInterface.world s) with
    | Ok _ =>
        CommandClient.sent (ButtonInterface.world r.1)
        = CommandClient.sent (ButtonInterface.world s) ++ [press_line; release_line]
        ∧ r.2 = CommandClient.next_reply (λ _, Some tt) id "Button.SetState" pressed
    | Raise e =>
        CommandClient.sent (ButtonInterface.world r.1)
        = CommandClient.sent (ButtonInterface.world s) ++ [press_line]
        ∧ r.2 = Raise e
    end.
Proof.
  intros Hcc id press_line release_line pressed r.
  assert (Hr : r = match CommandClient.next_reply (λ _, Some tt) id "Button.SetState"
                           (ButtonInterface.world s) with
                   | Ok _ =>
                       ButtonInterface.set_state ButtonInterface.Up false
                         (ButtonInterface.mkEnv (ButtonInterface.self s) pressed)
                   | Raise e =>
                       (ButtonInterface.mkEnv (ButtonInterface.self s) pressed, Raise e)
                   end).
  { unfold r, ButtonInterface.press_and_release, ButtonInterface.press,
      ButtonInterface.release, CommandClient.bind.
    unfold ButtonInterface.set_state at 1.
    rewrite button_invoke_unfold by done.
    by destruct (CommandClient.next_reply _ _ _ _) as [[]|e]. }
  rewrite Hr.
  destruct (CommandClient.next_reply _ id _ (ButtonInterface.world s)) as [[]|e].
  - unfold ButtonInterface.set_state. rewrite button_invoke_unfold by done. simpl.
    split_and!; try done. by rewrite <- app_assoc.
  - done.
Qed.

Lemma press_and_release_requests_witness :
  CommandClient.sent
    (ButtonInterface.world
       (ButtonInterface.press_and_release
          (ButtonInterface.mkEnv Examples.button447 Examples.world_press_release)).1)
  = ["INVOKE 447 Button.SetState 1"; "INVOKE 447 Button.SetState 0"]
  ∧ CommandClient.sent
      (ButtonInterface.world
         (ButtonInterface.press_and_release
            (ButtonInterface.mkEnv Examples.button447 Examples.world_refuses)).1)
    = ["INVOKE 447 Button.SetState 1"].
Proof.
  pose proof (press_and_release_requests
    (ButtonInterface.mkEnv Examples.button447 Examples.world_press_release)
    eq_refl) as [_ Hboth].
  pose proof (press_and_release_requests
    (ButtonInterface.mkEnv Examples.button447 Examples.world_refuses)
    eq_refl) as [_ Hone].
  split.
  - vm_compute in Hboth. destruct Hboth as [Hboth _]. vm_compute. exact Hboth.
  - vm_compute in Hone. destruct Hone as [Hone _]. vm_compute. exact Hone.
Defined.

(** X8.  An answer to [GETLED] that cannot be decoded is survived: when
    its last line does not have ten tokens, a color is not an integer or
    the blink rate is unknown, [fetch_state] logs one warning, leaves the
    object as the getters left it and returns their names. *)
Theorem getled_malformed_is_skipped (s s1 : ButtonInterface.Env)
    (changed lines : list string) (rest : list CommandClient.Reply) (line : string) :
  ButtonInterface.command_client (ButtonInterface.self s) = true →
  ButtonInterface.Interface_fetch_state s = (s1, Ok changed) →
  CommandClient.script (ButtonInterface.world s1) = CommandClient.Response lines :: rest →
  last lines = Some line →
  length (CommandClient.tokenize line) ≠ 10%nat
  ∨ (∃ t0 t1 t2 r1 g1 b1 r2 g2 b2 blink_str,
       CommandClient.tokenize line = [t0; t1; t2; r1; g1; b1; r2; g2; b2; blink_str]
       ∧ ((∃ e, ButtonInterface.rgb r1 g1 b1 = Raise e)
          ∨ (∃ e, ButtonInterface.rgb r2 g2 b2 = Raise e)
          ∨ (∃ e, ButtonInterface.BlinkRate_of blink_str = Raise e))) →
  ButtonInterface.fetch_state s
  = (ButtonInterface.mkEnv (ButtonInterface.self s1)
       (CommandClient.mkWorld
          (CommandClient.sent (ButtonInterface.world s1)
             ++ ["GETLED " +:+ CommandClient.str_of_Z
                                 (ButtonInterface.vid (ButtonInterface.self s))])
          rest
          (CommandClient.log (ButtonInterface.world s1) ++ ["Failed to fetch LED state"])),
     Ok changed).
Proof.
  intros Hcc Hbase Hscript Hlast Hbad.
  pose proof (steady_Interface_fetch_state s) as (Hv & Hc & _).
  rewrite Hbase in Hv, Hc. simpl in Hv, Hc.
  rewrite fetch_state_unfold, Hbase, Hc, Hcc. simpl.
  rewrite led_block_unfold, Hscript, Hv. simpl. rewrite Hlast.
  assert (Hvalues :
    match CommandClient.tokenize line with
    | [_; _; _; r1; g1; b1; r2; g2; b2; blink_str] =>
        match ButtonInterface.rgb r1 g1 b1 with
        | Raise e => Raise e
        | Ok active =>
            match ButtonInterface.rgb r2 g2 b2 with
            | Raise e => Raise e
            | Ok inactive =>
                match ButtonInterface.BlinkRate_of blink_str with
                | Raise e => Raise e
                | Ok rate => Ok (ButtonInterface.led_properties active inactive rate)
                end
            end
        end
    | _ => Raise ValueError
    end = Raise ValueError).
  { destruct Hbad as [Hlen|(t0 & t1 & t2 & r1 & g1 & b1 & r2 & g2 & b2 & blink_str
                             & -> & Hfail)].
    - destruct (CommandClient.tokenize line)
        as [|t0 [|t1 [|t2 [|r1 [|g1 [|b1 [|r2 [|g2 [|b2 [|blink_str [|]]]]]]]]]]];
        done.
    - destruct (ButtonInterface.rgb r1 g1 b1) as [active|e1] eqn:H1;
        [|by rewrite (rgb_raises_ValueError _ _ _ _ H1)].
      destruct (ButtonInterface.rgb r2 g2 b2) as [inactive|e2] eqn:H2;
        [|by rewrite (rgb_raises_ValueError _ _ _ _ H2)].
      destruct (ButtonInterface.BlinkRate_of blink_str) as [rate|e3] eqn:H3;
        [|by rewrite (BlinkRate_of_raises_ValueError _ _ H3)].
      destruct Hfail as [[e ?]|[[e ?]|[e ?]]]; done. }
  rewrite Hvalues. done.
Qed.

Lemma getled_malformed_is_skipped_witness :
  (ButtonInterface.fetch_state
     (ButtonInterface.mkEnv Examples.button447 Examples.world_led_truncated)).2
  = Ok [].
Proof.
  rewrite (getled_malformed_is_skipped
    (ButtonInterface.mkEnv Examples.button447 Examples.world_led_truncated)
    (ButtonInterface.mkEnv Examples.button447
       (CommandClient.mkWorld ["INVOKE 447 Button.GetState"]
          [CommandClient.Response ["R:GETLED 447 1 255 0"]] []))
    [] ["R:GETLED 447 1 255 0"] [] "R:GETLED 447 1 255 0").
  - reflexivity.
  - reflexivity.
  - vm_compute. reflexivity.
  - reflexivity.
  - reflexivity.
  - left. vm_compute. discriminate.
Defined.

(** X9.  The other failures of [GETLED] leave [fetch_state]: no answer
    ([TimeoutError]), an answer without lines ([IndexError], from
    [response[-1]]) and any exception the [except] clause does not name.
    The names the getters changed are then not returned, although the
    object keeps what the getters wrote. *)
Theorem getled_other_failures_escape (s s1 : ButtonInterface.Env)
    (changed : list string) (e : Exc) :
  ButtonInterface.command_client (ButtonInterface.self s) = true →
  ButtonInterface.Interface_fetch_state s = (s1, Ok changed) →
  (CommandClient.script (ButtonInterface.world s1) = [] ∧ e = TimeoutError)
  ∨ (∃ rest, CommandClient.script (ButtonInterface.world s1)
             = CommandClient.Response [] :: rest ∧ e = IndexError)
  ∨ (∃ rest, CommandClient.script (ButtonInterface.world s1)
             = CommandClient.Failure e :: rest
             ∧ ButtonInterface.led_caught e = false) →
  ∃ w, ButtonInterface.fetch_state s
       = (ButtonInterface.mkEnv (ButtonInterface.self s1) w, Raise e).
Proof.
  intros Hcc Hbase Hcase.
  pose proof (steady_Interface_fetch_state s) as (Hv & Hc & _).
  rewrite Hbase in Hv, Hc. simpl in Hv, Hc.
  rewrite fetch_state_unfold, Hbase, Hc, Hcc. simpl.
  rewrite led_block_unfold.
  destruct Hcase as [[Hscript ->]|[(rest & Hscript & ->)|(rest & Hscript & Hcaught)]];
    rewrite Hscript; simpl; [by eexists..|].
  rewrite Hcaught. by eexists.
Qed.

Lemma getled_other_failures_escape_witness :
  ∃ w,
    ButtonInterface.fetch_state
      (ButtonInterface.mkEnv Examples.button447 Examples.world_led_empty)
    = (ButtonInterface.mkEnv
         (ButtonInterface.mkButton 447 true
            (<["state" := ButtonInterface.VState ButtonInterface.Down]>
               ButtonInterface.default_props)) w,
       Raise IndexError).
Proof.
  apply (getled_other_failures_escape
    (ButtonInterface.mkEnv Examples.button447 Examples.world_led_empty)
    (ButtonInterface.mkEnv
       (ButtonInterface.mkButton 447 true
          (<["state" := ButtonInterface.VState ButtonInterface.Down]>
             ButtonInterface.default_props))
       (CommandClient.mkWorld ["INVOKE 447 Button.GetState"]
          [CommandClient.Response []] []))
    ["state"] IndexError).
  - reflexivity.
  - vm_compute. reflexivity.
  - right; left. by exists [].
Defined.

(** ** [iter_controller_ips] *)

Section ControllerIps.
Import FileLoader.




Lemma substring_whole (a : string) : substring 0 (String.length a) a = a.
Proof. induction a as [|c a IH]; simpl; [done|by rewrite IH]. Qed.



Lemma lstrip_head (s : string) :
  lstrip s = "" ∨ ∃ c t, lstrip s = String c t ∧ isspace c = false.
Proof.
  induction s as [|c s IH]; [by left|]. simpl.
  destruct (isspace c) eqn:Hc; [done|]. right. by exists c, s.
Qed.

Lemma rstrip_head (c : ascii) (t : string) :
  isspace c = false → ∃ t', rstrip (String c t) = String c t'.
Proof.
  intros Hc. simpl. rewrite Hc. destruct (rstrip t); by eexists.
Qed.

Lemma rstrip_rstrip (s : string) : rstrip (rstrip s) = rstrip s.
Proof.
  induction s as [|c s IH]; [done|]. simpl.
  destruct (rstrip s) as [|d kept] eqn:Hkept.
  - destruct (isspace c) eqn:Hc; [done|]. simpl. by rewrite Hc.
  - simpl in *. by rewrite IH.
Qed.

(** Stripping a stripped text changes nothing. *)
Lemma strip_strip (s : string) : strip (strip s) = strip s.
Proof.
  unfold strip.
  destruct (lstrip_head s) as [->|(c & t & -> & Hc)]; [done|].
  destruct (rstrip_head c t Hc) as [t' Ht']. rewrite Ht'.
  assert (Hl : lstrip (String c t') = String c t') by (simpl; by rewrite Hc).
  rewrite Hl, <- Ht'. apply rstrip_rstrip.
Qed.

Lemma _text_clean (elem : Element) (name value : string) :
  _text elem name = Some value → value ≠ "" ∧ strip value = value.
Proof.
  unfold _text. destruct (find name elem) as [child|]; [|done].
  repeat case_decide; try done. intros [= <-]. split; [done|apply strip_strip].
Qed.
End ControllerIps.



(** X11.  On every parsed backup [iter_controller_ips] returns normally,
    and yields nothing when the root has no [<ProjectInfo>]; every tuple
    comes from a child of [<ProjectInfo>] whose tag starts with
    [Controller], ends with [Info] and has in between a text that [int]
    reads as the yielded id; and a field that is present is never empty
    and has no whitespace left at either end. *)
Theorem controller_infos_are_clean (root : FileLoader.Element) :
  ∃ infos,
    FileLoader.iter_controller_ips (Ok root) = Ok infos
    ∧ (FileLoader.find "ProjectInfo" root = None → infos = [])
    ∧ ∀ vid ip mac fw, (vid, ip, mac, fw) ∈ infos →
        (∃ project_info elem,
           FileLoader.find "ProjectInfo" root = Some project_info
           ∧ elem ∈ FileLoader.children project_info
           ∧ FileLoader.startswith "Controller" (FileLoader.tag elem) = true
           ∧ FileLoader.endswith "Info" (FileLoader.tag elem) = true
           ∧ CommandClient.int (FileLoader.slice 10 4 (FileLoader.tag elem)) = Ok vid)
        ∧ ∀ field, field ∈ [ip; mac; fw] →
            ∀ value, field = Some value →
              value ≠ "" ∧ FileLoader.strip value = value.
Proof.
  unfold FileLoader.iter_controller_ips.
  destruct (FileLoader.find "ProjectInfo" root) as [project_info|] eqn:Hfind.
  - eexists. split; [done|]. split; [done|].
    intros vid ip mac fw Hin. apply list_elem_of_omap in Hin as (elem & Helem & Hinfo).
    unfold FileLoader.controller_info in Hinfo.
    destruct (FileLoader.startswith "Controller" (FileLoader.tag elem)) eqn:Hstart;
      [|done].
    destruct (FileLoader.endswith "Info" (FileLoader.tag elem)) eqn:Hend; [|done].
    simpl in Hinfo.
    destruct (CommandClient.int _) as [vid'|] eqn:Hint; [|done].
    injection Hinfo as -> <- <- <-. split.
    + by exists project_info, elem.
    + intros field Hfield value ->.
      rewrite !elem_of_cons, elem_of_nil in Hfield.
      destruct Hfield as [Hf|[Hf|[Hf|[]]]]; symmetry in Hf;
        by apply _text_clean in Hf.
  - exists []. split; [done|]. split; [done|].
    intros vid ip mac fw Hin. by apply elem_of_nil in Hin.
Qed.

Lemma controller_infos_are_clean_witness :
  ∃ infos,
    FileLoader.iter_controller_ips (Ok Examples.backup) = Ok infos
    ∧ infos = [(1, Some "192.168.0.200", None, Some "3.9.1");
               (2466, Some "192.168.0.201", None, None)].
Proof.
  destruct (controller_infos_are_clean Examples.backup) as (infos & Hinfos & _ & _).
  exists infos. split; [exact Hinfos|].
  vm_compute in Hinfos. by injection Hinfos as <-.
Defined.

(** ** The type map and the records of a snapshot *)

Section TypeMapFacts.
Import FileLoader.
Context {Cls : Type}.
Variable vantage_type : Cls → string.

Lemma build_step_lookup (m : gmap string Cls) (attr : option (Export Cls)) k cls :
  build_step vantage_type m attr !! k = Some cls →
  (attr = Some (Class cls true) ∧ vantage_type cls = k) ∨ m !! k = Some cls.
Proof.
  unfold build_step. destruct attr as [[|cls' []]|]; try by right.
  destruct (decide (vantage_type cls' = k)) as [<-|Hk].
  - rewrite lookup_insert_eq. intros [= ->]. by left.
  - rewrite lookup_insert_ne by done. by right.
Qed.

Lemma build_fold_lookup (exports : list (option (Export Cls))) :
  ∀ (m : gmap string Cls) k cls,
    fold_left (build_step vantage_type) exports m !! k = Some cls →
    (Some (Class cls true) ∈ exports ∧ vantage_type cls = k) ∨ m !! k = Some cls.
Proof.
  induction exports as [|attr exports IH]; intros m k cls; simpl; [by right|].
  intros Hk. apply IH in Hk as [[Hin Hty]|Hk].
  - left. split; [by right|done].
  - apply build_step_lookup in Hk as [[-> Hty]|Hk]; [|by right].
    left. split; [by left|done].
Qed.

Lemma build_fold_keeps (exports : list (option (Export Cls))) :
  ∀ (m : gmap string Cls) k,
    is_Some (m !! k) → is_Some (fold_left (build_step vantage_type) exports m !! k).
Proof.
  induction exports as [|attr exports IH]; intros m k Hk; simpl; [done|].
  apply IH. unfold build_step. destruct attr as [[|cls' []]|]; try done.
  destruct (decide (vantage_type cls' = k)) as [<-|Hne].
  - by rewrite lookup_insert_eq.
  - by rewrite lookup_insert_ne.
Qed.

Lemma build_fold_has (exports : list (option (Export Cls))) :
  ∀ (m : gmap string Cls) cls,
    Some (Class cls true) ∈ exports →
    is_Some (fold_left (build_step vantage_type) exports m !! vantage_type cls).
Proof.
  induction exports as [|attr exports IH]; intros m cls Hin; simpl.
  - by apply elem_of_nil in Hin.
  - apply elem_of_cons in Hin as [<-|Hin]; [|by apply IH].
    apply build_fold_keeps. simpl. by rewrite lookup_insert_eq.
Qed.
End TypeMapFacts.

(** X12.  In the map of [_build_type_map] every class sits under its own
    Vantage type and was exported as a [SystemObject] subclass; names that
    are missing, are not classes or are not system objects leave no entry;
    and the Vantage type of every exported system-object class has an
    entry. *)
Theorem type_map_keys_are_vantage_types {Cls : Type} (vantage_type : Cls → string)
    (exports : list (option (FileLoader.Export Cls))) :
  (∀ k cls,
     FileLoader._build_type_map vantage_type exports !! k = Some cls →
     vantage_type cls = k ∧ Some (FileLoader.Class cls true) ∈ exports)
  ∧ (∀ cls,
       Some (FileLoader.Class cls true) ∈ exports →
       ∃ cls', FileLoader._build_type_map vantage_type exports !! vantage_type cls
               = Some cls'
               ∧ vantage_type cls' = vantage_type cls).
Proof.
  unfold FileLoader._build_type_map. split.
  - intros k cls Hk. apply build_fold_lookup in Hk as [[Hin Hty]|Hk]; [done|].
    by rewrite lookup_empty in Hk.
  - intros cls Hin.
    destruct (build_fold_has vantage_type exports ∅ cls Hin) as [cls' Hcls'].
    exists cls'. split; [done|].
    apply build_fold_lookup in Hcls' as [[_ Hty]|Hk]; [done|].
    by rewrite lookup_empty in Hk.
Qed.

Lemma type_map_keys_are_vantage_types_witness :
  FileLoader._build_type_map Examples.cls_type Examples.exports !! "Button"
  = Some Examples.ButtonCls.
Proof.
  destruct (type_map_keys_are_vantage_types Examples.cls_type Examples.exports)
    as [_ Hhas].
  destruct (Hhas Examples.ButtonCls) as (cls' & Hcls' & Hty).
  { right; right; right; right; left. }
  simpl in Hcls'. rewrite Hcls'. f_equal. by destruct cls'.
Defined.

Section RecordFacts.
Import FileLoader.

Lemma find_Some (name : string) (e c : Element) :
  find name e = Some c → tag c = name ∧ c ∈ children e.
Proof.
  unfold find. intros Hfind. apply find_some in Hfind as [Hin Htag].
  split; [by apply bool_decide_eq_true in Htag|by apply list_elem_of_In].
Qed.

Lemma iter_unfold (name : string) (e : Element) :
  iter name e
  = (if bool_decide (tag e = name) then [e] else [])
    ++ flat_map (iter name) (children e).
Proof.
  unfold iter. destruct e as [t a x cs]. simpl.
  assert (Hflat : List.filter (λ c, bool_decide (tag c = name))
                    (flat_map descendants cs)
                  = flat_map (λ c, List.filter (λ d, bool_decide (tag d = name))
                                     (descendants c)) cs).
  { induction cs as [|c cs IH]; simpl; [done|]. by rewrite List.filter_app, IH. }
  rewrite Hflat. by destruct (bool_decide (t = name)).
Qed.

Lemma iter_none (name : string) (e : Element) :
  Forall (λ d, tag d ≠ name) (descendants e) → iter name e = [].
Proof.
  unfold iter. induction (descendants e) as [|d ds IH]; intros Hall; [done|].
  apply Forall_cons in Hall as [Hd Hds]. simpl.
  rewrite bool_decide_eq_false_2 by done. by apply IH.
Qed.
End RecordFacts.

(** X13.  The records [iter_objects] looks at are the [<Object>] elements
    anywhere below the first [<Objects>] child of the root, in document
    order, nested ones included; when every child of [<Objects>] is an
    [<Object>] that contains no further [<Object>], they are exactly these
    children, in order.  Without an [<Objects>] child nothing is
    yielded. *)
Theorem records_of_snapshot (root : FileLoader.Element) :
  (FileLoader.find "Objects" root = None → FileLoader.records root = [])
  ∧ ∀ objects_elem,
      FileLoader.find "Objects" root = Some objects_elem →
      FileLoader.records root
      = flat_map (FileLoader.iter "Object") (FileLoader.children objects_elem)
      ∧ (Forall (λ c, FileLoader.tag c = "Object"
                      ∧ Forall (λ d, Forall (λ x, FileLoader.tag x ≠ "Object")
                                       (FileLoader.descendants d))
                               (FileLoader.children c))
                (FileLoader.children objects_elem) →
         FileLoader.records root = FileLoader.children objects_elem).
Proof.
  unfold FileLoader.records. split; [by intros ->|].
  intros objects_elem Hfind. rewrite Hfind.
  destruct (find_Some _ _ _ Hfind) as [Htag _].
  assert (Hrec : FileLoader.iter "Object" objects_elem
                 = flat_map (FileLoader.iter "Object")
                     (FileLoader.children objects_elem)).
  { rewrite iter_unfold, Htag. done. }
  split; [done|]. rewrite Hrec. clear Hrec. intros Hflat.
  induction (FileLoader.children objects_elem) as [|c cs IH]; [done|].
  apply Forall_cons in Hflat as [[Hc Hnested] Hcs]. simpl.
  rewrite iter_unfold, Hc. simpl. rewrite (IH Hcs). f_equal.
  assert (Hnone : flat_map (FileLoader.iter "Object") (FileLoader.children c) = []).
  { induction (FileLoader.children c) as [|d ds IHd]; [done|].
    apply Forall_cons in Hnested as [Hd Hds]. simpl.
    by rewrite (iter_none _ _ Hd), (IHd Hds). }
  by rewrite Hnone.
Qed.

Lemma records_of_snapshot_witness :
  FileLoader.records Examples.snapshot
  = [Examples.good_load; Examples.wire_link; Examples.corrupt_button;
     Examples.empty_object; Examples.good_button]
  ∧ FileLoader.iter_objects Examples.type_map Examples.tostring Examples.from_string
      (Ok Examples.nested_snapshot)
    = Ok [Examples.mkSystemObject Examples.AreaCls 125;
          Examples.mkSystemObject Examples.ButtonCls 12;
          Examples.mkSystemObject Examples.LoadCls 447].
Proof.
  destruct (records_of_snapshot Examples.snapshot) as [_ Hflat].
  destruct (Hflat (FileLoader.Elem "Objects" [] ""
              [Examples.good_load; Examples.wire_link; Examples.corrupt_button;
               Examples.empty_object; Examples.good_button]) eq_refl)
    as [_ Hchildren].
  split.
  - rewrite Hchildren; [done|].
    repeat (apply Forall_cons; split;
            [split; [done|repeat (apply Forall_cons; split; [|]); try done;
                           repeat constructor; done]|]).
    apply Forall_nil_2.
  - vm_compute. reflexivity.
Defined.

(** ** The client: routing, loading a snapshot, initialising *)

Section ClientFacts.
Import FileLoader Controller.
Context {Obj : Type}.
Variable obj_vid : Obj → Z.
Variable obj_type : Obj → string.

Lemma route_types_lookup (i : nat) (types : list string) :
  ∀ (m : gmap string nat) t,
    fold_left (λ m' type_name, <[type_name := i]> m') types m !! t
    = if decide (t ∈ types) then Some i else m !! t.
Proof.
  induction types as [|ty types IH]; intros m t.
  - cbn [fold_left]. destruct (decide (t ∈ [])) as [Hin|_]; [|done].
    by apply elem_of_nil in Hin.
  - cbn [fold_left]. rewrite IH.
    destruct (decide (t ∈ ty :: types)) as [Hin|Hin].
    + destruct (decide (t ∈ types)) as [|Hnot]; [done|].
      apply elem_of_cons in Hin as [->|?]; [|done]. by rewrite lookup_insert_eq.
    + rewrite not_elem_of_cons in Hin. destruct Hin as [Hne Hnot].
      destruct (decide (t ∈ types)); [done|]. by rewrite lookup_insert_ne.
Qed.

Lemma routes_fold_lookup (l : list (nat * @Controller Obj)) (t : string) :
  match fold_left
          (λ m ic, fold_left (λ m' type_name, <[type_name := ic.1]> m')
                             (vantage_types ic.2) m) l (∅ : gmap string nat)
        !! t with
  | Some i => ∃ l1 c l2, l = l1 ++ (i, c) :: l2 ∧ t ∈ vantage_types c
                ∧ Forall (λ p, t ∉ vantage_types p.2) l2
  | None => Forall (λ p, t ∉ vantage_types p.2) l
  end.
Proof.
  induction l as [|[j c] l IH] using rev_ind.
  - simpl. rewrite lookup_empty. constructor.
  - rewrite fold_left_app. cbn [fold_left fst snd].
    rewrite route_types_lookup. case_decide as Ht.
    + exists l, c, []. split_and!; [done|done|constructor].
    + destruct (fold_left _ l ∅ !! t) as [i|].
      * destruct IH as (l1 & c0 & l2 & -> & Hc0 & Hl2).
        exists l1, c0, (l2 ++ [(j, c)]). split_and!; [|done|].
        -- by rewrite <- app_assoc.
        -- apply Forall_app. split; [done|]. by constructor.
      * apply Forall_app. split; [done|]. by constructor.
Qed.

Lemma type_to_controller_Some (cs : list (@Controller Obj)) (t : string) (i : nat) :
  Vantage.type_to_controller cs !! t = Some i →
  ∃ c, cs !! i = Some c ∧ t ∈ vantage_types c
    ∧ ∀ j c', cs !! j = Some c' → t ∈ vantage_types c' → (j ≤ i)%nat.
Proof.
  unfold Vantage.type_to_controller. intros Hroute.
  pose proof (routes_fold_lookup (imap pair cs) t) as Hfold.
  rewrite Hroute in Hfold. destruct Hfold as (l1 & c & l2 & Hl & Hc & Hl2).
  assert (Hat : imap pair cs !! length l1 = Some (i, c)).
  { rewrite Hl. by rewrite list_lookup_middle. }
  rewrite list_lookup_imap in Hat.
  destruct (cs !! length l1) as [c0|] eqn:Hc0; [|done].
  simpl in Hat. injection Hat as <- ->.
  exists c. split_and!; [done..|].
  intros j c' Hj Hc'. destruct (decide (j ≤ length l1)%nat) as [|Hgt]; [done|].
  exfalso.
  assert (Hjat : imap pair cs !! j = Some (j, c')).
  { by rewrite list_lookup_imap, Hj. }
  rewrite Hl in Hjat. rewrite lookup_app_r in Hjat by lia.
  destruct (j - length l1)%nat as [|k] eqn:Hk; [lia|]. simpl in Hjat.
  apply list_elem_of_lookup_2 in Hjat.
  rewrite Forall_forall in Hl2. by apply (Hl2 _ Hjat).
Qed.

Lemma type_to_controller_None (cs : list (@Controller Obj)) (t : string) :
  Vantage.type_to_controller cs !! t = None ↔ ∀ c, c ∈ cs → t ∉ vantage_types c.
Proof.
  split.
  - unfold Vantage.type_to_controller. intros Hroute c Hin.
    pose proof (routes_fold_lookup (imap pair cs) t) as Hfold.
    rewrite Hroute in Hfold. rewrite Forall_forall in Hfold.
    apply list_elem_of_lookup_1 in Hin as [j Hj].
    apply (Hfold (j, c)). apply (list_elem_of_lookup_2 _ j).
    by rewrite list_lookup_imap, Hj.
  - intros Hnone.
    destruct (Vantage.type_to_controller cs !! t) as [i|] eqn:Hroute; [|done].
    apply type_to_controller_Some in Hroute as (c & Hc & Ht & _).
    exfalso. apply (Hnone c); [|done]. by apply list_elem_of_lookup_2 in Hc.
Qed.

Lemma inject_fold_count routes (objs : list Obj) :
  ∀ (cs : list (@Controller Obj)) n,
    (fold_left (Vantage.inject_object obj_vid obj_type routes) objs (cs, n)).2
    = n + Z.of_nat (length (filter (λ o, is_Some (routes !! obj_type o)) objs)).
Proof.
  induction objs as [|obj objs IH]; intros cs n; simpl; [lia|].
  rewrite filter_cons. unfold Vantage.inject_object at 2.
  destruct (routes !! obj_type obj) as [i|] eqn:Hroute; cbn [fst snd].
  - rewrite IH. rewrite decide_True by done. simpl length. lia.
  - rewrite IH. rewrite decide_False; [done|]. by intros [? ?].
Qed.

(** Whatever the loop of [_inject_from_file] leaves in a registry was
    there before or comes from the file, routed to this controller. *)
Lemma inject_fold_sound routes (objs : list Obj) :
  ∀ (cs : list (@Controller Obj)) n i c1 vid o,
    (fold_left (Vantage.inject_object obj_vid obj_type routes) objs (cs, n)).1 !! i
      = Some c1 →
    objects c1 !! vid = Some o →
    (∃ c, cs !! i = Some c ∧ objects c !! vid = Some o)
    ∨ (o ∈ objs ∧ routes !! obj_type o = Some i ∧ obj_vid o = vid).
Proof.
  induction objs as [|obj objs IH]; intros cs n i c1 vid o; simpl.
  - intros Hc1 Ho. left. by exists c1.
  - intros Hc1 Ho.
    destruct (Vantage.inject_object obj_vid obj_type routes (cs, n) obj)
      as [cs' n'] eqn:Hone.
    destruct (IH cs' n' i c1 vid o Hc1 Ho) as [(c' & Hc' & Ho')|(Hin & Hr & Hv)];
      [|right; split_and!; [by right|done..]].
    unfold Vantage.inject_object in Hone.
    destruct (routes !! obj_type obj) as [j|] eqn:Hroute; cbn [fst snd] in Hone;
      injection Hone as <- <-; [|left; by exists c'].
    destruct (decide (j = i)) as [->|Hne].
    + rewrite list_lookup_alter_eq in Hc'.
      destruct (cs !! i) as [c|] eqn:Hc; [|done]. simpl in Hc'.
      injection Hc' as <-. simpl in Ho'. unfold add_object in Ho'.
      destruct (decide (obj_vid obj = vid)) as [<-|Hvid].
      * rewrite lookup_insert_eq in Ho'. injection Ho' as <-.
        right. split_and!; [by left|done..].
      * rewrite lookup_insert_ne in Ho' by done. left. by exists c.
    + rewrite list_lookup_alter_ne in Hc' by done. left. by exists c'.
Qed.

Lemma NoDup_fmap_same {A B : Type} (f : A → B) (l : list A) (x y : A) :
  NoDup (f <$> l) → x ∈ l → y ∈ l → f x = f y → x = y.
Proof.
  induction l as [|a l IH]; intros Hnd Hx Hy Hxy; [by apply elem_of_nil in Hx|].
  rewrite fmap_cons in Hnd. apply NoDup_cons in Hnd as [Ha Hnd].
  apply elem_of_cons in Hx as [->|Hx]; apply elem_of_cons in Hy as [->|Hy].
  - done.
  - exfalso. apply Ha. rewrite Hxy. by apply list_elem_of_fmap_2.
  - exfalso. apply Ha. rewrite <- Hxy. by apply list_elem_of_fmap_2.
  - by apply IH.
Qed.

(** The first controller that contains an id is the only one, when only
    one does. *)
Lemma getitem_from_unique (cs : list (@Controller Obj)) (vid : Z) :
  ∀ i c obj,
    cs !! i = Some c →
    objects c !! vid = Some obj →
    (∀ j c', cs !! j = Some c' → is_Some (objects c' !! vid) → j = i) →
    Vantage.getitem_from cs vid = Ok obj
    ∧ existsb (λ c, Controller.contains c vid) cs = true.
Proof.
  induction cs as [|c0 cs IH]; intros i c obj Hc Hobj Honly; [done|].
  simpl. destruct i as [|i].
  - injection Hc as ->.
    assert (Hin : Controller.contains c vid = true).
    { apply contains_true. by exists obj. }
    rewrite Hin. unfold Controller.getitem. by rewrite Hobj.
  - simpl in Hc.
    destruct (Controller.contains c0 vid) eqn:Hc0.
    + apply contains_true in Hc0 as [o Ho].
      by specialize (Honly 0%nat c0 eq_refl (mk_is_Some _ _ Ho)).
    + simpl. apply (IH i c obj Hc Hobj).
      intros j c' Hj Hsome. by injection (Honly (S j) c' Hj Hsome).
Qed.

Lemma iter_elem_of (cs : list (@Controller Obj)) (obj : Obj) :
  obj ∈ flat_map (λ controller, (map_to_list (objects controller)).*2) cs
  ↔ ∃ i c vid, cs !! i = Some c ∧ objects c !! vid = Some obj.
Proof.
  rewrite list_elem_of_In, in_flat_map. split.
  - intros (c & Hc & Hobj). apply list_elem_of_In in Hc, Hobj.
    apply list_elem_of_lookup_1 in Hc as [i Hi].
    apply list_elem_of_fmap in Hobj as ([vid o] & -> & Hkv).
    apply elem_of_map_to_list in Hkv. by exists i, c, vid.
  - intros (i & c & vid & Hc & Hobj). exists c.
    rewrite <- !list_elem_of_In. split; [by apply list_elem_of_lookup_2 in Hc|].
    apply list_elem_of_fmap. exists (vid, obj). split; [done|].
    by apply elem_of_map_to_list.
Qed.
End ClientFacts.

(** X14.  When several controllers declare a Vantage type,
    [type_to_controller] routes it to the one that the set of controllers
    iterates last: a route always points at a controller that declares the
    type, no controller after it declares the type, and a type has no
    route exactly when no controller declares it. *)
Theorem type_routes_to_last_controller {Obj : Type}
    (cs : list (@Controller.Controller Obj)) (t : string) :
  (∀ i, Vantage.type_to_controller cs !! t = Some i →
     ∃ c, cs !! i = Some c ∧ t ∈ Controller.vantage_types c
       ∧ ∀ j c', cs !! j = Some c' → t ∈ Controller.vantage_types c' → (j ≤ i)%nat)
  ∧ (Vantage.type_to_controller cs !! t = None
     ↔ ∀ c, c ∈ cs → t ∉ Controller.vantage_types c).
Proof.
  split; [apply type_to_controller_Some|apply type_to_controller_None].
Qed.

Lemma type_routes_to_last_controller_witness :
  Vantage.type_to_controller Examples.overlapping_controllers !! "Load" = Some 2%nat
  ∧ Vantage.type_to_controller Examples.overlapping_controllers !! "Area" = None.
Proof.
  destruct (type_routes_to_last_controller Examples.overlapping_controllers "Load")
    as [Hsome _].
  destruct (type_routes_to_last_controller Examples.overlapping_controllers "Area")
    as [_ Hnone].
  split.
  - destruct (Vantage.type_to_controller Examples.overlapping_controllers !! "Load")
      as [i|] eqn:Hroute; [|by vm_compute in Hroute].
    destruct (Hsome i eq_refl) as (c & Hc & _ & Hlast).
    f_equal. apply lookup_lt_Some in Hc. simpl in Hc.
    specialize (Hlast 2%nat Examples.rgb_loads_controller eq_refl).
    assert (2 ≤ i)%nat; [|lia].
    apply Hlast. right. left.
  - apply Hnone. intros c Hc. unfold Examples.overlapping_controllers in Hc.
    rewrite !elem_of_cons, elem_of_nil in Hc.
    destruct Hc as [->|[->|[->|[]]]]; intros Hin; simpl in Hin;
      rewrite ?elem_of_cons, elem_of_nil in Hin; by intuition.
Defined.

(** X15.  Loading a snapshot into a new client whose file holds objects
    with distinct ids: the count that is logged is the number of objects
    whose type has a route; each of these is afterwards found under its id
    by [client[vid]], [vid in client] and [client.get(vid)]; the client
    contains no other id, and iterating it yields exactly these
    objects. *)
Theorem snapshot_objects_are_found {Cls Obj : Type}
    (obj_vid : Obj → Z) (obj_type : Obj → string)
    (type_map : string → option Cls) (tostring : FileLoader.Element → string)
    (from_string : string → Cls → result Obj)
    (v : @Vantage.Vantage Obj) (file : Vantage.ConfigFile) (objs : list Obj) :
  FileLoader.iter_objects type_map tostring from_string (Vantage.parsed file)
    = Ok objs →
  (∀ c, c ∈ Vantage._controllers v → Controller.objects c = ∅) →
  NoDup (obj_vid <$> objs) →
  let routes := Vantage.type_to_controller (Vantage._controllers v) in
  let r := Vantage._inject_from_file obj_vid obj_type type_map tostring
             from_string file v in
  r.2 = Ok (Z.of_nat (length (filter (λ o, is_Some (routes !! obj_type o)) objs)))
  ∧ (∀ obj, obj ∈ objs → is_Some (routes !! obj_type obj) →
       Vantage.getitem r.1 (obj_vid obj) = Ok obj
       ∧ Vantage.contains r.1 (obj_vid obj) = true
       ∧ Vantage.get r.1 (obj_vid obj) = Ok (Some obj))
  ∧ (∀ vid, Vantage.contains r.1 vid = true →
       ∃ obj, obj ∈ objs ∧ is_Some (routes !! obj_type obj) ∧ obj_vid obj = vid)
  ∧ (∀ obj, obj ∈ Vantage.iter r.1
            ↔ obj ∈ objs ∧ is_Some (routes !! obj_type obj)).
Proof.
  intros Hparse Hfresh Hnodup routes r.
  set (f := fold_left (Vantage.inject_object obj_vid obj_type routes) objs
              (Vantage._controllers v, 0)).
  assert (Hr : r = (Vantage.mkVantage f.1 (Vantage._local_config_file v)
                      (Vantage.config_client v) (Vantage.event_stream v),
                    Ok f.2)).
  { unfold r, Vantage._inject_from_file. by rewrite Hparse. }
  assert (Hsound : ∀ i c1 vid o, f.1 !! i = Some c1 →
            Controller.objects c1 !! vid = Some o →
            o ∈ objs ∧ routes !! obj_type o = Some i ∧ obj_vid o = vid).
  { intros i c1 vid o Hc1 Ho.
    destruct (inject_fold_sound obj_vid obj_type routes objs _ _ _ _ _ _ Hc1 Ho)
      as [(c & Hc & Hco)|?]; [|done].
    apply list_elem_of_lookup_2 in Hc. rewrite (Hfresh c Hc) in Hco.
    by rewrite lookup_empty in Hco. }
  assert (Hfound : ∀ obj i, obj ∈ objs → routes !! obj_type obj = Some i →
            ∃ c1, f.1 !! i = Some c1
                  ∧ Controller.objects c1 !! obj_vid obj = Some obj).
  { intros obj i Hin Hroute.
    destruct (type_to_controller_Some _ _ _ Hroute) as (c & Hc & _).
    destruct (inject_fold_lookup obj_vid obj_type routes objs _ 0 i c Hc)
      as (c1 & Hc1 & _ & _ & _ & Hobjs).
    exists c1. split; [done|].
    destruct (Hobjs obj Hin Hroute) as [o Ho].
    destruct (Hsound i c1 _ o Hc1 Ho) as (Hoin & _ & Hvid).
    by rewrite (NoDup_fmap_same obj_vid objs o obj Hnodup Hoin Hin Hvid) in Ho. }
  rewrite Hr. cbn [fst snd]. split_and!.
  - unfold f. by rewrite inject_fold_count.
  - intros obj Hin [i Hroute].
    destruct (Hfound obj i Hin Hroute) as (c1 & Hc1 & Ho).
    destruct (getitem_from_unique f.1 (obj_vid obj) i c1 obj Hc1 Ho) as [Hget Hex].
    { intros j c' Hj [o' Ho'].
      destruct (Hsound j c' _ o' Hj Ho') as (Hoin & Hrj & Hvid).
      rewrite (NoDup_fmap_same obj_vid objs o' obj Hnodup Hoin Hin Hvid) in Hrj.
      congruence. }
    unfold Vantage.get, Vantage.getitem, Vantage.contains. cbn [Vantage._controllers].
    by rewrite Hget.
  - intros vid Hex. unfold Vantage.contains in Hex. cbn [Vantage._controllers] in Hex.
    apply existsb_exists in Hex as (c1 & Hc1 & Hcontains).
    apply list_elem_of_In, list_elem_of_lookup_1 in Hc1 as [i Hi].
    apply contains_true in Hcontains as [o Ho].
    destruct (Hsound i c1 vid o Hi Ho) as (Hoin & Hroute & Hvid).
    exists o. split_and!; [done| |done]. by exists i.
  - intros obj. unfold Vantage.iter. cbn [Vantage._controllers].
    rewrite iter_elem_of. split.
    + intros (i & c1 & vid & Hc1 & Ho).
      destruct (Hsound i c1 vid obj Hc1 Ho) as (Hoin & Hroute & _).
      split; [done|by exists i].
    + intros [Hin [i Hroute]].
      destruct (Hfound obj i Hin Hroute) as (c1 & Hc1 & Ho).
      by exists i, c1, (obj_vid obj).
Qed.

Lemma snapshot_objects_are_found_witness :
  (Vantage._inject_from_file Examples.obj_id Examples.vantage_type
     Examples.type_map Examples.tostring Examples.from_string
     (Vantage.mkConfigFile true (Ok Examples.snapshot)) Examples.cold_client).2
  = Ok 2
  ∧ Vantage.get
      (Vantage._inject_from_file Examples.obj_id Examples.vantage_type
         Examples.type_map Examples.tostring Examples.from_string
         (Vantage.mkConfigFile true (Ok Examples.snapshot)) Examples.cold_client).1
      12
    = Ok (Some (Examples.mkSystemObject Examples.ButtonCls 12)).
Proof.
  destruct (snapshot_objects_are_found Examples.obj_id Examples.vantage_type
    Examples.type_map Examples.tostring Examples.from_string Examples.cold_client
    (Vantage.mkConfigFile true (Ok Examples.snapshot))
    [Examples.mkSystemObject Examples.LoadCls 447;
     Examples.mkSystemObject Examples.ButtonCls 12])
    as (Hcount & Hfound & _ & _).
  - vm_compute. reflexivity.
  - intros c Hc. simpl in Hc. rewrite !elem_of_cons, elem_of_nil in Hc.
    destruct Hc as [->|[->|[->|[]]]]; reflexivity.
  - simpl. apply NoDup_cons. split; [|apply NoDup_singleton].
    rewrite elem_of_cons, elem_of_nil. by intuition.
  - split; [rewrite Hcount; vm_compute; reflexivity|].
    destruct (Hfound (Examples.mkSystemObject Examples.ButtonCls 12))
      as (_ & _ & Hget); [right; left|by exists 1%nat|exact Hget].
Defined.



(** ** Switching state monitoring on and off *)

Section MonitoringRoundTrip.
Import Controller.
Context {Obj : Type}.

Lemma filter_all {A : Type} (P : A → Prop) `{∀ x, Decision (P x)} (l : list A) :
  Forall P l → filter P l = l.
Proof.
  induction 1 as [|x l Hx Hl IH]; [done|].
  by rewrite filter_cons, decide_True, IH.
Qed.

Lemma filter_none {A : Type} (P : A → Prop) `{∀ x, Decision (P x)} (l : list A) :
  Forall (λ x, ¬ P x) l → filter P l = [].
Proof.
  induction 1 as [|x l Hx Hl IH]; [done|].
  by rewrite filter_cons, decide_False, IH.
Qed.

(** [disable_state_monitoring] removes the subscriptions whose
    unsubscribe functions are stored, and no others. *)
Lemma unsubscribe_all (ids : list nat) :
  ∀ es,
    subscriptions (fold_left (λ e id, unsubscribe id e) ids es)
    = filter (λ s, sub_id s ∉ ids) (subscriptions es).
Proof.
  induction ids as [|id ids IH]; intros es; simpl.
  - symmetry. apply filter_all, Forall_forall. intros s _. apply not_elem_of_nil.
  - rewrite IH. simpl. rewrite list_filter_filter. apply list_filter_iff.
    intros s. rewrite not_elem_of_cons. tauto.
Qed.

Lemma subscribe_categories_spec (cb : nat) (categories : list string) :
  ∀ es,
    subscriptions (subscribe_categories cb categories es).1
    = subscriptions es
      ++ imap (λ k category,
                 mkSubscription (next_id es + k) cb (Status category)) categories
    ∧ (subscribe_categories cb categories es).2
      = seq (next_id es) (length categories)
    ∧ next_id (subscribe_categories cb categories es).1
      = (next_id es + length categories)%nat.
Proof.
  induction categories as [|category rest IH]; intros es.
  - simpl. by rewrite app_nil_r, Nat.add_0_r.
  - cbn [subscribe_categories fst snd].
    destruct (IH (subscribe_status cb category es).1) as (Hsubs & Hids & Hnext).
    rewrite Hsubs, Hids, Hnext. simpl. split_and!.
    + rewrite <- app_assoc. simpl. rewrite Nat.add_0_r. do 2 f_equal.
      apply imap_ext. intros k c _. simpl. f_equal. lia.
    + done.
    + lia.
Qed.

Lemma imap_sub_ids (cb : nat) (categories : list string) :
  ∀ n,
    sub_id <$> imap (λ k category, mkSubscription (n + k) cb (Status category))
                    categories
    = seq n (length categories).
Proof.
  induction categories as [|category rest IH]; intros n; [done|].
  simpl. rewrite Nat.add_0_r. f_equal. rewrite <- IH.
  f_equal. apply imap_ext. intros k y _. simpl. f_equal. lia.
Qed.

(** The subscriptions a controller has made are the tail of the stream,
    and their ids are the stored unsubscribe functions. *)
Lemma base_monitoring_owned self_ (c : @Controller Obj) es n0 old new :
  subscriptions es = old ++ new →
  sub_id <$> new = _status_unsubs c →
  Forall (λ s, (n0 ≤ sub_id s)%nat) new →
  (n0 ≤ next_id es)%nat →
  ∃ new',
    subscriptions (Controller_enable_state_monitoring self_ c es).2 = old ++ new'
    ∧ sub_id <$> new' = _status_unsubs (Controller_enable_state_monitoring self_ c es).1
    ∧ Forall (λ s, (n0 ≤ sub_id s)%nat) new'
    ∧ (n0 ≤ next_id (Controller_enable_state_monitoring self_ c es).2)%nat.
Proof.
  intros Hsubs Hids Hnew Hnext. unfold Controller_enable_state_monitoring.
  destruct (_status_type c); [by exists new|].
  destruct (enhanced_log es).
  - exists (new ++ [mkSubscription (next_id es) self_ EnhancedLog]). simpl.
    split_and!.
    + by rewrite Hsubs, <- app_assoc.
    + by rewrite fmap_app, Hids.
    + apply Forall_app. split; [done|]. by repeat constructor.
    + lia.
  - destruct (subscribe_categories_spec self_ (status_categories c) es)
      as (Hcat & Hcids & Hcnext).
    exists (new ++ imap (λ k category,
                           mkSubscription (next_id es + k) self_ (Status category))
                        (status_categories c)).
    simpl. split_and!.
    + by rewrite Hcat, Hsubs, <- app_assoc.
    + by rewrite fmap_app, Hids, Hcids, imap_sub_ids.
    + apply Forall_app. split; [done|]. apply Forall_forall.
      intros s Hs. apply elem_of_lookup_imap in Hs as (k & y & -> & _). simpl. lia.
    + rewrite Hcnext. lia.
Qed.

Lemma monitoring_owned self_ (c : @Controller Obj) es n0 old new :
  subscriptions es = old ++ new →
  sub_id <$> new = _status_unsubs c →
  Forall (λ s, (n0 ≤ sub_id s)%nat) new →
  (n0 ≤ next_id es)%nat →
  ∃ new',
    subscriptions (enable_state_monitoring self_ c es).2 = old ++ new'
    ∧ sub_id <$> new' = _status_unsubs (enable_state_monitoring self_ c es).1
    ∧ Forall (λ s, (n0 ≤ sub_id s)%nat) new'
    ∧ (n0 ≤ next_id (enable_state_monitoring self_ c es).2)%nat.
Proof.
  intros Hsubs Hids Hnew Hnext.
  destruct (base_monitoring_owned self_ c es n0 old new Hsubs Hids Hnew Hnext)
    as (new' & Hsubs' & Hids' & Hnew' & Hnext').
  unfold enable_state_monitoring.
  destruct (class c); try by exists new'.
  unfold ButtonsController_enable_state_monitoring.
  case_decide; [|by exists new'].
  exists (new' ++ [mkSubscription
                     (next_id (Controller_enable_state_monitoring self_ c es).2)
                     self_ (Status "LED")]).
  simpl. split_and!.
  - by rewrite Hsubs', <- app_assoc.
  - by rewrite fmap_app, Hids'.
  - apply Forall_app. split; [done|]. by repeat constructor.
  - lia.
Qed.

Lemma monitoring_owned_iter self_ (c : @Controller Obj) es (n : nat) :
  _status_unsubs c = [] →
  ∃ new,
    subscriptions
      (Nat.iter n (λ r, enable_state_monitoring self_ r.1 r.2) (c, es)).2
    = subscriptions es ++ new
    ∧ sub_id <$> new
      = _status_unsubs
          (Nat.iter n (λ r, enable_state_monitoring self_ r.1 r.2) (c, es)).1
    ∧ Forall (λ s, (next_id es ≤ sub_id s)%nat) new
    ∧ (next_id es
       ≤ next_id (Nat.iter n (λ r, enable_state_monitoring self_ r.1 r.2) (c, es)).2)%nat.
Proof.
  intros Hunsubs. induction n as [|n IH].
  - exists []. simpl. by rewrite app_nil_r, Hunsubs.
  - destruct IH as (new & Hsubs & Hids & Hnew & Hnext).
    rewrite Nat.iter_succ. by apply (monitoring_owned _ _ _ _ _ new).
Qed.
End MonitoringRoundTrip.

(** X17.  [disable_state_monitoring] undoes any number of
    [enable_state_monitoring] calls on a controller that held no
    subscription: every subscription the calls added, the repeated [LED]
    subscriptions of the buttons controller included, is removed, the
    subscriptions that were on the stream before are kept, and the
    controller is back to not monitoring. *)
Theorem disable_undoes_enables {Obj : Type} (self_ : nat)
    (c : @Controller.Controller Obj) (es : Controller.EventStream) (n : nat) :
  Controller._status_unsubs c = [] →
  Forall (λ s, (Controller.sub_id s < Controller.next_id es)%nat)
         (Controller.subscriptions es) →
  let on := Nat.iter n (λ r, Controller.enable_state_monitoring self_ r.1 r.2)
                     (c, es) in
  let off := Controller.disable_state_monitoring on.1 on.2 in
  Controller.subscriptions off.2 = Controller.subscriptions es
  ∧ Controller._status_type off.1 = None
  ∧ Controller._status_unsubs off.1 = [].
Proof.
  intros Hunsubs Hfresh on off.
  destruct (monitoring_owned_iter self_ c es n Hunsubs)
    as (new & Hsubs & Hids & Hnew & _).
  fold on in Hsubs, Hids.
  split_and!; [|done..].
  unfold off, Controller.disable_state_monitoring. cbn [fst snd].
  rewrite unsubscribe_all, Hsubs, <- Hids, filter_app.
  rewrite (filter_all _ (Controller.subscriptions es)).
  - rewrite (filter_none _ new); [by rewrite app_nil_r|].
    apply Forall_forall. intros s Hs Hnot. apply Hnot.
    by apply list_elem_of_fmap_2.
  - apply Forall_forall. intros s Hs Hin.
    apply list_elem_of_fmap in Hin as (s' & Hid & Hs').
    rewrite Forall_forall in Hfresh, Hnew.
    specialize (Hfresh s Hs). specialize (Hnew s' Hs'). lia.
Qed.

Lemma disable_undoes_enables_witness :
  Controller.subscriptions
    (Controller.enable_state_monitoring 0
       (Controller.enable_state_monitoring 0 Examples.buttons
          Examples.busy_stream).1
       (Controller.enable_state_monitoring 0 Examples.buttons
          Examples.busy_stream).2).2
  = [Controller.mkSubscription 0 7 (Controller.Status "LOAD");
     Controller.mkSubscription 1 0 Controller.EnhancedLog;
     Controller.mkSubscription 2 0 (Controller.Status "LED");
     Controller.mkSubscription 3 0 (Controller.Status "LED")]
  ∧ Controller.subscriptions
      (Controller.disable_state_monitoring
         (Controller.enable_state_monitoring 0
            (Controller.enable_state_monitoring 0 Examples.buttons
               Examples.busy_stream).1
            (Controller.enable_state_monitoring 0 Examples.buttons
               Examples.busy_stream).2).1
         (Controller.enable_state_monitoring 0
            (Controller.enable_state_monitoring 0 Examples.buttons
               Examples.busy_stream).1
            (Controller.enable_state_monitoring 0 Examples.buttons
               Examples.busy_stream).2).2).2
    = [Controller.mkSubscription 0 7 (Controller.Status "LOAD")].
Proof.
  split; [vm_compute; reflexivity|].
  apply (disable_undoes_enables 0 Examples.buttons Examples.busy_stream 2).
  - reflexivity.
  - repeat constructor.
Defined.

(** X18.  The first [enable_state_monitoring] of a buttons controller
    that is not yet monitoring.  With the enhanced log it subscribes to
    the enhanced log and then to [STATUS LED], and stores both unsubscribe
    functions in that order; without it, the override adds nothing to what
    the base class subscribed. *)
Theorem buttons_first_enable {Obj : Type} (self_ : nat)
    (c : @Controller.Controller Obj) (es : Controller.EventStream) :
  Controller.class c = Controller.ButtonsController →
  Controller._status_type c = None →
  (Controller.enhanced_log es = true →
     Controller.enable_state_monitoring self_ c es
     = (Controller.set_monitoring c (Some Controller.OBJECT)
          (Controller._status_unsubs c
             ++ [Controller.next_id es; S (Controller.next_id es)]),
        Controller.mkEventStream
          (Controller.subscriptions es
             ++ [Controller.mkSubscription (Controller.next_id es) self_
                   Controller.EnhancedLog;
                 Controller.mkSubscription (S (Controller.next_id es)) self_
                   (Controller.Status "LED")])
          (S (S (Controller.next_id es))) true))
  ∧ (Controller.enhanced_log es = false →
     Controller.enable_state_monitoring self_ c es
     = Controller.Controller_enable_state_monitoring self_ c es
     ∧ Controller._status_type (Controller.enable_state_monitoring self_ c es).1
       = Some Controller.CATEGORY
     ∧ Controller.subscriptions (Controller.enable_state_monitoring self_ c es).2
       = Controller.subscriptions es
         ++ imap (λ k category,
                    Controller.mkSubscription (Controller.next_id es + k) self_
                      (Controller.Status category))
                 (Controller.status_categories c)).
Proof.
  intros Hclass Hst.
  unfold Controller.enable_state_monitoring. rewrite Hclass.
  unfold Controller.ButtonsController_enable_state_monitoring,
    Controller.Controller_enable_state_monitoring. rewrite Hst.
  split; intros Hlog; rewrite Hlog; cbn [fst snd Controller.set_monitoring
    Controller._status_type Controller._status_unsubs].
  - rewrite decide_True by done.
    unfold Controller.subscribe_status, Controller.subscribe_enhanced_log,
      Controller.subscribe. cbn.
    by rewrite <- !app_assoc, Hlog.
  - rewrite decide_False by done. split_and!; [done..|].
    apply subscribe_categories_spec.
Qed.

Lemma buttons_first_enable_witness :
  Controller.subscriptions
    (Controller.enable_state_monitoring 3 Examples.buttons Examples.busy_stream).2
  = [Controller.mkSubscription 0 7 (Controller.Status "LOAD");
     Controller.mkSubscription 1 3 Controller.EnhancedLog;
     Controller.mkSubscription 2 3 (Controller.Status "LED")]
  ∧ Controller.subscriptions
      (Controller.enable_state_monitoring 3 Examples.buttons
         Examples.busy_stream_legacy).2
    = [Controller.mkSubscription 0 7 (Controller.Status "LOAD");
       Controller.mkSubscription 1 3 (Controller.Status "BTN");
       Controller.mkSubscription 2 3 (Controller.Status "LED")].
Proof.
  destruct (buttons_first_enable 3 Examples.buttons Examples.busy_stream
              eq_refl eq_refl) as [Hobject _].
  destruct (buttons_first_enable 3 Examples.buttons Examples.busy_stream_legacy
              eq_refl eq_refl) as [_ Hcategory].
  split.
  - by rewrite (Hobject eq_refl).
  - destruct (Hcategory eq_refl) as (_ & _ & Hsubs). by rewrite Hsubs.
Defined.

(** X19.  The loader together with the type map.  Every object that
    [iter_objects] yields was parsed from the first child of an [<Object>]
    record, as the class whose [vantage_type()] is the tag of that child,
    and this class is an exported subclass of [SystemObject]; the other
    children of a record are never looked at. *)
Theorem yielded_objects_match_their_tag {Cls Obj : Type}
    (vantage_type : Cls → string)
    (exports : list (option (FileLoader.Export Cls)))
    (tostring : FileLoader.Element → string)
    (from_string : string → Cls → result Obj)
    (root : FileLoader.Element) (objs : list Obj) :
  FileLoader.iter_objects
    (λ name, (FileLoader._get_type_map vantage_type None exports).1 !! name)
    tostring from_string (Ok root) = Ok objs →
  ∀ obj, obj ∈ objs →
    ∃ object_elem typed_elem rest cls,
      object_elem ∈ FileLoader.records root
      ∧ FileLoader.children object_elem = typed_elem :: rest
      ∧ vantage_type cls = FileLoader.tag typed_elem
      ∧ Some (FileLoader.Class cls true) ∈ exports
      ∧ from_string (tostring typed_elem) cls = Ok obj.
Proof.
  unfold FileLoader.iter_objects. intros [= <-] obj Hobj.
  apply list_elem_of_omap in Hobj as (object_elem & Hin & Hload).
  apply load_record_Some in Hload as (typed_elem & rest & cls & Hch & Hcls & Hparse).
  exists object_elem, typed_elem, rest, cls. split_and!; try done.
  - simpl in Hcls. unfold FileLoader._build_type_map in Hcls.
    apply build_fold_lookup in Hcls as [[_ Hty]|Hk]; [done|].
    by rewrite lookup_empty in Hk.
  - simpl in Hcls. unfold FileLoader._build_type_map in Hcls.
    apply build_fold_lookup in Hcls as [[Hin' _]|Hk]; [done|].
    by rewrite lookup_empty in Hk.
Qed.

Lemma yielded_objects_match_their_tag_witness :
  ∃ object_elem typed_elem rest cls,
    object_elem ∈ FileLoader.records Examples.snapshot
    ∧ FileLoader.children object_elem = typed_elem :: rest
    ∧ Examples.cls_type cls = FileLoader.tag typed_elem
    ∧ Some (FileLoader.Class cls true) ∈ Examples.exports
    ∧ Examples.from_string (Examples.tostring typed_elem) cls
      = Ok (Examples.mkSystemObject Examples.ButtonCls 12).
Proof.
  apply (yielded_objects_match_their_tag Examples.cls_type Examples.exports
           Examples.tostring Examples.from_string Examples.snapshot
           [Examples.mkSystemObject Examples.LoadCls 447;
            Examples.mkSystemObject Examples.ButtonCls 12]).
  - vm_compute. reflexivity.
  - right; left.
Defined.
